(** * CustomKeypad: scan, debounce and hold logic of a matrix keypad driver

    A shallow embedding of [src/CustomKeypad.h] and [src/CustomKeypad.cpp].
    The class is a record, its methods are state-passing functions over a
    [World] made of the object, the GPIO board and the log of calls made to
    the registered event listener.  The value returned by [millis()] is an
    argument of [getKey]. *)

From Stdlib Require Import ZArith NArith List Bool Ascii Lia PeanoNat.
Import ListNotations.

Local Open Scope Z_scope.

(** ** The Arduino platform *)

Module Arduino.

(** A pin number is a [byte]. *)
Definition pin := N.

Inductive PinMode := INPUT | OUTPUT.

Definition Level := bool.
Definition HIGH : Level := true.
Definition LOW : Level := false.

Definition is_output (m : PinMode) : bool :=
  match m with OUTPUT => true | INPUT => false end.

(** The board: direction and output latch of every pin, and the keypad
    matrix attached to it.  [row_lines] and [col_lines] are the pins the
    row and column conductors are soldered to, [switches r c] tells
    whether the key at row [r], column [c] is closed. *)
Record Hardware := mkHardware {
  modes : pin -> PinMode;
  levels : pin -> Level;
  row_lines : list pin;
  col_lines : list pin;
  switches : nat -> nat -> bool
}.

Definition pinMode (p : pin) (m : PinMode) (hw : Hardware) : Hardware :=
  {| modes := fun q => if N.eqb q p then m else modes hw q;
     levels := levels hw;
     row_lines := row_lines hw;
     col_lines := col_lines hw;
     switches := switches hw |}.

Definition digitalWrite (p : pin) (v : Level) (hw : Hardware) : Hardware :=
  {| modes := modes hw;
     levels := fun q => if N.eqb q p then v else levels hw q;
     row_lines := row_lines hw;
     col_lines := col_lines hw;
     switches := switches hw |}.

(** A busy wait changes nothing on the board. *)
Definition delayMicroseconds (us : Z) (hw : Hardware) : Hardware := hw.

(** Column [c] drives its conductor when its pin is an output at HIGH. *)
Definition col_active (hw : Hardware) (c : nat) : bool :=
  is_output (modes hw (nth c (col_lines hw) 0%N))
  && levels hw (nth c (col_lines hw) 0%N).

(** Row [r] is pulled HIGH when an active column is bridged to it. *)
Definition row_bridged (hw : Hardware) (r : nat) : bool :=
  existsb (fun c => col_active hw c && switches hw r c)
          (seq 0 (length (col_lines hw))).

(** Modelled from the spec: the platform's [digitalRead], which is not
    part of the repository.  With pull-downs on the rows, a row pin reads
    HIGH exactly when an active column is electrically bridged to the row
    through a closed switch. *)
Definition digitalRead (hw : Hardware) (p : pin) : Level :=
  existsb (fun r => N.eqb (nth r (row_lines hw) 0%N) p && row_bridged hw r)
          (seq 0 (length (row_lines hw))).

(** The keys change between two calls of the driver. *)
Definition set_switches (sw : nat -> nat -> bool) (hw : Hardware) : Hardware :=
  {| modes := modes hw;
     levels := levels hw;
     row_lines := row_lines hw;
     col_lines := col_lines hw;
     switches := sw |}.

(** [unsigned long] is 32 bits wide on the Arduino cores; [a - b] on two
    [unsigned long] wraps around. *)
Definition ULONG_MODULUS : Z := 2 ^ 32.

Definition usub (a b : Z) : Z := (a - b) mod ULONG_MODULUS.

(** [count++] on a [byte]. *)
Definition byte_incr (n : nat) : nat := ((n + 1) mod 256)%nat.

End Arduino.

Import Arduino.

(** ** CustomKeypad.h *)

Inductive KeyState := KEY_RELEASED | KEY_PRESSED | KEY_HOLD.

(** The [#define]d values stored in the [char _keyState]. *)
Definition KeyState_value (s : KeyState) : Z :=
  match s with
  | KEY_RELEASED => 0
  | KEY_PRESSED => 1
  | KEY_HOLD => 2
  end.

Definition KeyState_eqb (a b : KeyState) : bool :=
  match a, b with
  | KEY_RELEASED, KEY_RELEASED => true
  | KEY_PRESSED, KEY_PRESSED => true
  | KEY_HOLD, KEY_HOLD => true
  | _, _ => false
  end.

Definition KeypadEvent := ascii.

(** The character 0, "no key". *)
Definition NO_KEY : ascii := Ascii.zero.

(** [if (key)] on a [char]. *)
Definition nonzero (k : ascii) : bool := negb (Ascii.eqb k NO_KEY).

(** The members of the class.  [_eventListener] is a function pointer of
    which the class only tests whether it is null: [true] stands for a
    registered listener. *)
Record CustomKeypad := mkCustomKeypad {
  _rows : list pin;
  _cols : list pin;
  _numRows : nat;
  _numCols : nat;
  _keymap : list (list ascii);
  _debounceTime : Z;
  _holdTime : Z;
  _lastChange : Z;
  _pressStart : Z;
  _lastKey : ascii;
  _keyState : KeyState;
  _holding : bool;
  _eventListener : bool
}.

(** One call of the listener: its argument, and what [getKeyState()] would
    answer from inside the call. *)
Record Dispatch := mkDispatch {
  arg : KeypadEvent;
  seen : KeyState
}.

Record World := mkWorld {
  obj : CustomKeypad;
  board : Hardware;
  calls : list Dispatch
}.

(** ** CustomKeypad.cpp *)

(** The constructor, with the default member initialisers of the header. *)
Definition CustomKeypad_new (userKeymap : list (list ascii))
    (rowPins colPins : list pin) (numRows numCols : nat) : CustomKeypad :=
  {| _rows := rowPins;
     _cols := colPins;
     _numRows := numRows;
     _numCols := numCols;
     _keymap := userKeymap;
     _debounceTime := 50;
     _holdTime := 1000;
     _lastChange := 0;
     _pressStart := 0;
     _lastKey := NO_KEY;
     _keyState := KEY_RELEASED;
     _holding := false;
     _eventListener := false |}.

(** [_rows[r]], [_cols[c]] and [_keymap[r][c]]. *)
Definition row_pin (kp : CustomKeypad) (r : nat) : pin := nth r (_rows kp) 0%N.
Definition col_pin (kp : CustomKeypad) (c : nat) : pin := nth c (_cols kp) 0%N.
Definition keymap_at (kp : CustomKeypad) (r c : nat) : ascii :=
  nth c (nth r (_keymap kp) []) NO_KEY.

(** The two loops of [begin].  The counters are [byte]s below a [byte]
    bound, so they never wrap. *)
Definition begin_cols (kp : CustomKeypad) (hw : Hardware) : Hardware :=
  fold_left (fun h c => digitalWrite (col_pin kp c) LOW
                          (pinMode (col_pin kp c) OUTPUT h))
            (seq 0 (_numCols kp)) hw.

Definition begin_rows (kp : CustomKeypad) (hw : Hardware) : Hardware :=
  fold_left (fun h r => pinMode (row_pin kp r) INPUT h)
            (seq 0 (_numRows kp)) hw.

Definition begin (kp : CustomKeypad) (hw : Hardware) : Hardware :=
  begin_rows kp (begin_cols kp hw).

(** The row loop of [scanKeypad] for the energised column [c]: [Some k]
    when the loop leaves through its [return]. *)
Fixpoint scan_rows (kp : CustomKeypad) (hw : Hardware) (c : nat)
    (rs : list nat) : option ascii :=
  match rs with
  | [] => None
  | r :: rs' =>
      if digitalRead hw (row_pin kp r)
      then Some (keymap_at kp r c)
      else scan_rows kp hw c rs'
  end.

(** The column loop of [scanKeypad]. *)
Fixpoint scan_cols (kp : CustomKeypad) (hw : Hardware) (cs : list nat)
    : ascii * Hardware :=
  match cs with
  | [] => (NO_KEY, hw)
  | c :: cs' =>
      let hw1 := delayMicroseconds 10 (digitalWrite (col_pin kp c) HIGH hw) in
      match scan_rows kp hw1 c (seq 0 (_numRows kp)) with
      | Some k => (k, digitalWrite (col_pin kp c) LOW hw1)
      | None => scan_cols kp (digitalWrite (col_pin kp c) LOW hw1) cs'
      end
  end.

Definition scanKeypad (kp : CustomKeypad) (hw : Hardware) : ascii * Hardware :=
  scan_cols kp hw (seq 0 (_numCols kp)).

(** [if (_eventListener) _eventListener(key);] *)
Definition notify (kp : CustomKeypad) (key : ascii) (log : list Dispatch)
    : list Dispatch :=
  if _eventListener kp
  then log ++ [mkDispatch key (_keyState kp)]
  else log.

(** The accepted change: the body of the inner [if] of [getKey]. *)
Definition accept_change (kp : CustomKeypad) (key : ascii) (now : Z)
    : CustomKeypad :=
  {| _rows := _rows kp;
     _cols := _cols kp;
     _numRows := _numRows kp;
     _numCols := _numCols kp;
     _keymap := _keymap kp;
     _debounceTime := _debounceTime kp;
     _holdTime := _holdTime kp;
     _lastChange := now;
     _pressStart := now;
     _lastKey := _lastKey kp;
     _keyState := if nonzero key then KEY_PRESSED else KEY_RELEASED;
     _holding := false;
     _eventListener := _eventListener kp |}.

(** The body of the [else if] of [getKey]. *)
Definition enter_hold (kp : CustomKeypad) : CustomKeypad :=
  {| _rows := _rows kp;
     _cols := _cols kp;
     _numRows := _numRows kp;
     _numCols := _numCols kp;
     _keymap := _keymap kp;
     _debounceTime := _debounceTime kp;
     _holdTime := _holdTime kp;
     _lastChange := _lastChange kp;
     _pressStart := _pressStart kp;
     _lastKey := _lastKey kp;
     _keyState := KEY_HOLD;
     _holding := true;
     _eventListener := _eventListener kp |}.

(** [_lastKey = key;] *)
Definition set_lastKey (key : ascii) (kp : CustomKeypad) : CustomKeypad :=
  {| _rows := _rows kp;
     _cols := _cols kp;
     _numRows := _numRows kp;
     _numCols := _numCols kp;
     _keymap := _keymap kp;
     _debounceTime := _debounceTime kp;
     _holdTime := _holdTime kp;
     _lastChange := _lastChange kp;
     _pressStart := _pressStart kp;
     _lastKey := key;
     _keyState := _keyState kp;
     _holding := _holding kp;
     _eventListener := _eventListener kp |}.

(** The [if] / [else if] of [getKey], on the scanned [key] and the clock
    value [now]: the object and the listener log after it. *)
Definition getKey_branches (kp : CustomKeypad) (log : list Dispatch)
    (key : ascii) (now : Z) : CustomKeypad * list Dispatch :=
  if negb (Ascii.eqb key (_lastKey kp)) then
    if usub now (_lastChange kp) >? _debounceTime kp then
      let kp' := accept_change kp key now in
      (kp', notify kp' key log)
    else (kp, log)
  else if nonzero key && negb (_holding kp)
          && (usub now (_pressStart kp) >=? _holdTime kp) then
    let kp' := enter_hold kp in
    (kp', notify kp' key log)
  else (kp, log).

(** [getKey], where [now] is what [millis()] returns. *)
Definition getKey (now : Z) (w : World) : ascii * World :=
  let (key, hw') := scanKeypad (obj w) (board w) in
  let (kp', log') := getKey_branches (obj w) (calls w) key now in
  (key, {| obj := set_lastKey key kp'; board := hw'; calls := log' |}).

(** One store [keysBuffer[index] = value] into the caller's memory. *)
Record Store := mkStore {
  index : nat;
  value : ascii
}.

(** The row loop of [getKeys] for the energised column [c], on the running
    [count] and the stores made so far. *)
Fixpoint getKeys_rows (kp : CustomKeypad) (hw : Hardware) (c : nat)
    (rs : list nat) (maxKeys count : nat) (stores : list Store)
    : nat * list Store :=
  match rs with
  | [] => (count, stores)
  | r :: rs' =>
      if digitalRead hw (row_pin kp r) then
        if (count <? maxKeys)%nat then
          getKeys_rows kp hw c rs' maxKeys (byte_incr count)
                       (stores ++ [mkStore count (keymap_at kp r c)])
        else getKeys_rows kp hw c rs' maxKeys count stores
      else getKeys_rows kp hw c rs' maxKeys count stores
  end.

(** The column loop of [getKeys]. *)
Fixpoint getKeys_cols (kp : CustomKeypad) (hw : Hardware) (cs : list nat)
    (maxKeys count : nat) (stores : list Store)
    : nat * list Store * Hardware :=
  match cs with
  | [] => (count, stores, hw)
  | c :: cs' =>
      let hw1 := delayMicroseconds 10 (digitalWrite (col_pin kp c) HIGH hw) in
      let (count', stores') :=
        getKeys_rows kp hw1 c (seq 0 (_numRows kp)) maxKeys count stores in
      getKeys_cols kp (digitalWrite (col_pin kp c) LOW hw1) cs'
                   maxKeys count' stores'
  end.

(** [getKeys(keysBuffer, maxKeys)]: the returned count, the stores made
    into [keysBuffer] in the order they were made, and the world after the
    call.  The method assigns to no member. *)
Definition getKeys (maxKeys : nat) (w : World) : nat * list Store * World :=
  let '(count, stores, hw') :=
    getKeys_cols (obj w) (board w) (seq 0 (_numCols (obj w))) maxKeys 0%nat [] in
  (count, stores, {| obj := obj w; board := hw'; calls := calls w |}).

(** The caller's buffer after one store; a store outside the buffer is
    undefined behaviour, [None]. *)
Definition poke (buf : option (list ascii)) (s : Store) : option (list ascii) :=
  match buf with
  | Some cells =>
      if (index s <? length cells)%nat
      then Some (firstn (index s) cells ++ value s :: skipn (S (index s)) cells)
      else None
  | None => None
  end.

(** The caller's buffer after the stores of a call. *)
Definition buffer_after (keysBuffer : list ascii) (stores : list Store)
    : option (list ascii) :=
  fold_left poke stores (Some keysBuffer).

(** [transitionTo], private and called from nowhere in the class. *)
Definition transitionTo (newState : KeyState) (w : World) : World :=
  if KeyState_eqb (_keyState (obj w)) newState then w
  else
    let kp := obj w in
    let kp' :=
      {| _rows := _rows kp;
         _cols := _cols kp;
         _numRows := _numRows kp;
         _numCols := _numCols kp;
         _keymap := _keymap kp;
         _debounceTime := _debounceTime kp;
         _holdTime := _holdTime kp;
         _lastChange := _lastChange kp;
         _pressStart := _pressStart kp;
         _lastKey := _lastKey kp;
         _keyState := newState;
         _holding := _holding kp;
         _eventListener := _eventListener kp |} in
    {| obj := kp';
       board := board w;
       calls := if nonzero (_lastKey kp)
                then notify kp' (_lastKey kp) (calls w)
                else calls w |}.

Definition setDebounceTime (debounceTime : Z) (kp : CustomKeypad) : CustomKeypad :=
  {| _rows := _rows kp;
     _cols := _cols kp;
     _numRows := _numRows kp;
     _numCols := _numCols kp;
     _keymap := _keymap kp;
     _debounceTime := debounceTime;
     _holdTime := _holdTime kp;
     _lastChange := _lastChange kp;
     _pressStart := _pressStart kp;
     _lastKey := _lastKey kp;
     _keyState := _keyState kp;
     _holding := _holding kp;
     _eventListener := _eventListener kp |}.

Definition setHoldTime (holdTime : Z) (kp : CustomKeypad) : CustomKeypad :=
  {| _rows := _rows kp;
     _cols := _cols kp;
     _numRows := _numRows kp;
     _numCols := _numCols kp;
     _keymap := _keymap kp;
     _debounceTime := _debounceTime kp;
     _holdTime := holdTime;
     _lastChange := _lastChange kp;
     _pressStart := _pressStart kp;
     _lastKey := _lastKey kp;
     _keyState := _keyState kp;
     _holding := _holding kp;
     _eventListener := _eventListener kp |}.

Definition addEventListener (listener : bool) (kp : CustomKeypad) : CustomKeypad :=
  {| _rows := _rows kp;
     _cols := _cols kp;
     _numRows := _numRows kp;
     _numCols := _numCols kp;
     _keymap := _keymap kp;
     _debounceTime := _debounceTime kp;
     _holdTime := _holdTime kp;
     _lastChange := _lastChange kp;
     _pressStart := _pressStart kp;
     _lastKey := _lastKey kp;
     _keyState := _keyState kp;
     _holding := _holding kp;
     _eventListener := listener |}.

Definition getKeyState (kp : CustomKeypad) : KeyState := _keyState kp.

Definition isPressed (kp : CustomKeypad) (key : ascii) : bool :=
  Ascii.eqb (_lastKey kp) key.

(** ** Programs using the driver *)

(** What the sketch and the world around it do, one after the other: calls
    of the public methods, and keys going down or up between two calls. *)
Inductive Action :=
| CallBegin
| CallGetKey (now : Z)
| CallSetDebounceTime (ms : Z)
| CallSetHoldTime (ms : Z)
| CallAddEventListener (listener : bool)
| KeysChange (sw : nat -> nat -> bool).

Definition with_obj (f : CustomKeypad -> CustomKeypad) (w : World) : World :=
  {| obj := f (obj w); board := board w; calls := calls w |}.

Definition with_board (f : Hardware -> Hardware) (w : World) : World :=
  {| obj := obj w; board := f (board w); calls := calls w |}.

Definition perform (a : Action) (w : World) : World :=
  match a with
  | CallBegin => with_board (begin (obj w)) w
  | CallGetKey now => snd (getKey now w)
  | CallSetDebounceTime ms => with_obj (setDebounceTime ms) w
  | CallSetHoldTime ms => with_obj (setHoldTime ms) w
  | CallAddEventListener l => with_obj (addEventListener l) w
  | KeysChange sw => with_board (set_switches sw) w
  end.

Definition run (prog : list Action) (w : World) : World :=
  fold_left (fun w a => perform a w) prog w.

(** A freshly constructed keypad on a board. *)
Definition power_on (kp : CustomKeypad) (hw : Hardware) : World :=
  {| obj := kp; board := hw; calls := [] |}.

(** The states a program can reach from a freshly constructed keypad. *)
Inductive reachable (userKeymap : list (list ascii)) (rowPins colPins : list pin)
    (numRows numCols : nat) (hw : Hardware) : World -> Prop :=
| reachable_start :
    reachable userKeymap rowPins colPins numRows numCols hw
      (power_on (CustomKeypad_new userKeymap rowPins colPins numRows numCols) hw)
| reachable_step : forall w a,
    reachable userKeymap rowPins colPins numRows numCols hw w ->
    reachable userKeymap rowPins colPins numRows numCols hw (perform a w).

(** ** The 2x2 keypad of the scenarios *)

Module Scenario.

Definition keymap2x2 : list (list ascii) :=
  [["1"%char; "2"%char]; ["3"%char; "4"%char]].

Definition rowPins : list pin := [2%N; 3%N].
Definition colPins : list pin := [4%N; 5%N].

Definition keypad : CustomKeypad :=
  CustomKeypad_new keymap2x2 rowPins colPins 2 2.

Definition no_key : nat -> nat -> bool := fun _ _ => false.

(** Only the key at row [r0], column [c0] is down. *)
Definition one_key (r0 c0 : nat) : nat -> nat -> bool :=
  fun r c => Nat.eqb r r0 && Nat.eqb c c0.

(** The keys at (row 0, col 1) and (row 1, col 0) are down. *)
Definition two_keys : nat -> nat -> bool :=
  fun r c => one_key 0 1 r c || one_key 1 0 r c.

(** The board after reset: every pin an input at LOW, no key down. *)
Definition board0 : Hardware :=
  {| modes := fun _ => INPUT;
     levels := fun _ => LOW;
     row_lines := rowPins;
     col_lines := colPins;
     switches := no_key |}.

(** [setup()]: construct, [begin()], register a listener. *)
Definition setup : World :=
  run [CallBegin; CallAddEventListener true] (power_on keypad board0).

(** S1: nothing at t=0, key (0,0) down at t=100. *)
Definition S1 : list Action :=
  [CallGetKey 0; KeysChange (one_key 0 0); CallGetKey 100].

(** S2: from S1, the key is up at t=120 and stays up. *)
Definition S2_bounce : list Action :=
  S1 ++ [KeysChange no_key; CallGetKey 120].

Definition S2_release : list Action :=
  S2_bounce ++ [CallGetKey 180].

(** S5: key (0,0) down at t=0, key (1,0) down instead at t=30 and still
    at t=100. *)
Definition S5_swap : list Action :=
  [KeysChange (one_key 0 0); CallGetKey 0; KeysChange (one_key 1 0);
   CallGetKey 30].

Definition S5_settled : list Action :=
  S5_swap ++ [CallGetKey 100].

(** A key that is already down at the first poll, 10 ms after reset. *)
Definition early_press : list Action :=
  [KeysChange (one_key 0 0); CallGetKey 10; CallGetKey 400; CallGetKey 900].

(** A hold time below the debounce time: the key is held from t=100,
    reported held at t=130, and let go just after. *)
Definition short_hold : list Action :=
  [CallSetHoldTime 30; KeysChange (one_key 0 0); CallGetKey 100;
   CallGetKey 130; KeysChange no_key; CallGetKey 140; CallGetKey 5000].

End Scenario.

(** ** Vocabulary of the statements *)

(** The character the sweep of [getKey] finds in world [w]. *)
Definition scanned (w : World) : ascii := fst (scanKeypad (obj w) (board w)).

(** The configuration members: what the constructor stores. *)
Definition same_config (a b : CustomKeypad) : Prop :=
  _rows a = _rows b /\ _cols a = _cols b /\ _numRows a = _numRows b
  /\ _numCols a = _numCols b /\ _keymap a = _keymap b.

(** Every column pin of the keypad is at LOW. *)
Definition cols_low (kp : CustomKeypad) (hw : Hardware) : Prop :=
  forall c, (c < _numCols kp)%nat -> levels hw (col_pin kp c) = LOW.

(** Every column pin of the keypad is an output. *)
Definition cols_output (kp : CustomKeypad) (hw : Hardware) : Prop :=
  forall c, (c < _numCols kp)%nat -> modes hw (col_pin kp c) = OUTPUT.

(** The keypad is configured with the pins the matrix is attached to, one
    pin per conductor. *)
Definition wired (kp : CustomKeypad) (hw : Hardware) : Prop :=
  row_lines hw = _rows kp /\ col_lines hw = _cols kp
  /\ length (_rows kp) = _numRows kp /\ length (_cols kp) = _numCols kp
  /\ NoDup (_rows kp) /\ NoDup (_cols kp).

(** What [begin] establishes and every scan needs: the keypad is wired as
    configured, and its column pins are outputs at LOW. *)
Definition ready (kp : CustomKeypad) (hw : Hardware) : Prop :=
  wired kp hw /\ cols_low kp hw /\ cols_output kp hw.

(** The characters of the closed intersections of column [c] among the
    rows [rs], in the order of [rs]. *)
Definition rows_keys (kp : CustomKeypad) (hw : Hardware) (c : nat)
    (rs : list nat) : list ascii :=
  map (fun r => keymap_at kp r c) (filter (fun r => switches hw r c) rs).

(** The characters of the closed intersections in the order of the sweep:
    column by column, and row by row inside a column. *)
Definition closed_keys (kp : CustomKeypad) (hw : Hardware) : list ascii :=
  flat_map (fun c => rows_keys kp hw c (seq 0 (_numRows kp)))
           (seq 0 (_numCols kp)).

(** The stores that write [ks] into consecutive cells from index [i]. *)
Fixpoint numbered (i : nat) (ks : list ascii) : list Store :=
  match ks with
  | [] => []
  | k :: ks' => mkStore i k :: numbered (S i) ks'
  end.

(** The cells are filled from index 0 upwards, one per counted key, and
    the count has not passed [maxKeys]. *)
Definition filled (maxKeys count : nat) (stores : list Store) : Prop :=
  (count <= maxKeys)%nat /\ map index stores = seq 0 count.

(** Of the closed keys [done] met so far, the first [maxKeys] have been
    stored, one per cell from index 0, and counted. *)
Definition recorded (maxKeys : nat) (done : list ascii)
    (count : nat) (stores : list Store) : Prop :=
  count = length (firstn maxKeys done)
  /\ stores = numbered 0 (firstn maxKeys done).

(** [(c, r)] comes no later than [(c', r')] in the sweep. *)
Definition sweep_le (c r c' r' : nat) : Prop :=
  (c < c')%nat \/ (c = c' /\ (r <= r')%nat).

(** A poll after the world around the driver has moved: [env] is what
    happened to the board since the last call. *)
Definition poll (env : Hardware -> Hardware) (now : Z) (w : World) : World :=
  snd (getKey now (with_board env w)).

Definition polls (ticks : list ((Hardware -> Hardware) * Z)) (w : World) : World :=
  fold_left (fun w tick => poll (fst tick) (snd tick) w) ticks w.

(** Every poll of [ticks] finds the key [K]. *)
Fixpoint sustained (K : ascii) (ticks : list ((Hardware -> Hardware) * Z))
    (w : World) : Prop :=
  match ticks with
  | [] => True
  | tick :: rest =>
      scanned (with_board (fst tick) w) = K
      /\ sustained K rest (poll (fst tick) (snd tick) w)
  end.

(** The poll at [now] in world [w] accepts a change of key. *)
Definition accepts (now : Z) (w : World) : Prop :=
  scanned w <> _lastKey (obj w)
  /\ usub now (_lastChange (obj w)) > _debounceTime (obj w).

(** No poll of [ticks] accepts a change of key. *)
Fixpoint no_accept (ticks : list ((Hardware -> Hardware) * Z)) (w : World)
    : Prop :=
  match ticks with
  | [] => True
  | tick :: rest =>
      ~ accepts (snd tick) (with_board (fst tick) w)
      /\ no_accept rest (poll (fst tick) (snd tick) w)
  end.

(** [q] is one of the configured column pins, one of the configured row
    pins. *)
Definition is_col (kp : CustomKeypad) (q : pin) : bool :=
  existsb (fun c => N.eqb q (col_pin kp c)) (seq 0 (_numCols kp)).

Definition is_row (kp : CustomKeypad) (q : pin) : bool :=
  existsb (fun r => N.eqb q (row_pin kp r)) (seq 0 (_numRows kp)).

(** Two boards that no [pinMode], [digitalWrite] or [digitalRead] tells
    apart. *)
Definition same_board (a b : Hardware) : Prop :=
  (forall q, modes a q = modes b q)
  /\ (forall q, levels a q = levels b q)
  /\ row_lines a = row_lines b
  /\ col_lines a = col_lines b
  /\ switches a = switches b.

(** Board [b] is board [a] where some configured column pins may have
    been driven LOW, and nothing else has changed. *)
Definition columns_lowered (kp : CustomKeypad) (a b : Hardware) : Prop :=
  modes b = modes a
  /\ row_lines b = row_lines a
  /\ col_lines b = col_lines a
  /\ switches b = switches a
  /\ forall q, levels b q = levels a q
               \/ (is_col kp q = true /\ levels b q = LOW).

(** The action registers a listener. *)
Definition registers (a : Action) : bool :=
  match a with
  | CallAddEventListener l => l
  | _ => false
  end.

(** Every [getKey] of the program finds the key [K]. *)
Fixpoint steady (K : ascii) (prog : list Action) (w : World) : Prop :=
  match prog with
  | [] => True
  | a :: rest =>
      match a with
      | CallGetKey _ => scanned w = K
      | _ => True
      end
      /\ steady K rest (perform a w)
  end.

(** No action of the program is a [getKey]. *)
Definition polls_nothing (prog : list Action) : Prop :=
  Forall (fun a => match a with CallGetKey _ => False | _ => True end) prog.

(** What the listener is told agrees with what it can ask: the argument
    is 0 exactly when the state it sees is RELEASED. *)
Definition coherent (d : Dispatch) : Prop :=
  seen d = KEY_RELEASED <-> arg d = NO_KEY.

(** Closed goals about a concrete run of the driver are settled by
    running it. *)
Ltac evaluate :=
  vm_compute;
  first [ reflexivity | discriminate | lia
        | let H := fresh in intro H; discriminate H ].

(** ** The clock *)

Lemma usub_no_wrap (a b : Z) :
  0 <= b <= a -> a < ULONG_MODULUS -> usub a b = a - b.
Proof.
  intros Hb Ha. unfold usub.
  apply Z.mod_small. lia.
Qed.

Lemma usub_range (a b : Z) : 0 <= usub a b < ULONG_MODULUS.
Proof.
  unfold usub, ULONG_MODULUS. apply Z.mod_pos_bound. reflexivity.
Qed.

(** ** The state machine of [getKey] *)

Lemma nonzero_true (k : ascii) : nonzero k = true <-> k <> NO_KEY.
Proof.
  unfold nonzero. rewrite negb_true_iff.
  destruct (Ascii.eqb_spec k NO_KEY); split; congruence.
Qed.

Lemma nonzero_false (k : ascii) : nonzero k = false <-> k = NO_KEY.
Proof.
  unfold nonzero. rewrite negb_false_iff.
  destruct (Ascii.eqb_spec k NO_KEY); split; congruence.
Qed.

(** [getKey] is the sweep followed by the branches on its result. *)
Lemma getKey_eq (now : Z) (w : World) :
  getKey now w =
  (scanned w,
   {| obj := set_lastKey (scanned w)
               (fst (getKey_branches (obj w) (calls w) (scanned w) now));
      board := snd (scanKeypad (obj w) (board w));
      calls := snd (getKey_branches (obj w) (calls w) (scanned w) now) |}).
Proof.
  unfold getKey, scanned.
  destruct (scanKeypad (obj w) (board w)) as [key hw'].
  cbn [fst snd].
  destruct (getKey_branches (obj w) (calls w) key now) as [kp' log'].
  reflexivity.
Qed.

Lemma branches_accept kp log key now :
  key <> _lastKey kp ->
  usub now (_lastChange kp) > _debounceTime kp ->
  getKey_branches kp log key now =
  (accept_change kp key now, notify (accept_change kp key now) key log).
Proof.
  intros Hk Ht. unfold getKey_branches.
  destruct (Ascii.eqb_spec key (_lastKey kp)) as [E|_]; [contradiction|].
  cbn [negb].
  destruct (Z.gtb_spec (usub now (_lastChange kp)) (_debounceTime kp));
    [reflexivity | lia].
Qed.

Lemma branches_suppress kp log key now :
  key <> _lastKey kp ->
  usub now (_lastChange kp) <= _debounceTime kp ->
  getKey_branches kp log key now = (kp, log).
Proof.
  intros Hk Ht. unfold getKey_branches.
  destruct (Ascii.eqb_spec key (_lastKey kp)) as [E|_]; [contradiction|].
  cbn [negb].
  destruct (Z.gtb_spec (usub now (_lastChange kp)) (_debounceTime kp));
    [lia | reflexivity].
Qed.

Lemma branches_hold kp log key now :
  key = _lastKey kp -> key <> NO_KEY -> _holding kp = false ->
  usub now (_pressStart kp) >= _holdTime kp ->
  getKey_branches kp log key now =
  (enter_hold kp, notify (enter_hold kp) key log).
Proof.
  intros Hk Hz Hh Ht. unfold getKey_branches.
  destruct (Ascii.eqb_spec key (_lastKey kp)) as [_|N]; [|contradiction].
  cbn [negb]. apply nonzero_true in Hz. rewrite Hz, Hh. cbn [negb andb].
  destruct (Z.geb_spec (usub now (_pressStart kp)) (_holdTime kp));
    [reflexivity | lia].
Qed.

Lemma branches_idle kp log key now :
  key = _lastKey kp ->
  key = NO_KEY \/ _holding kp = true
  \/ usub now (_pressStart kp) < _holdTime kp ->
  getKey_branches kp log key now = (kp, log).
Proof.
  intros Hk Hc. unfold getKey_branches.
  destruct (Ascii.eqb_spec key (_lastKey kp)) as [_|N]; [|contradiction].
  cbn [negb].
  destruct Hc as [Hz | [Hh | Ht]].
  - apply nonzero_false in Hz. rewrite Hz. reflexivity.
  - rewrite Hh. rewrite andb_false_r. reflexivity.
  - destruct (Z.geb_spec (usub now (_pressStart kp)) (_holdTime kp)); [lia|].
    rewrite andb_false_r. reflexivity.
Qed.

Lemma set_lastKey_same (kp : CustomKeypad) : set_lastKey (_lastKey kp) kp = kp.
Proof. destruct kp; reflexivity. Qed.

(** A poll never writes the members set by the constructor and the
    setters. *)
Lemma getKey_keeps_settings (now : Z) (w : World) :
  same_config (obj w) (obj (snd (getKey now w)))
  /\ _debounceTime (obj (snd (getKey now w))) = _debounceTime (obj w)
  /\ _holdTime (obj (snd (getKey now w))) = _holdTime (obj w)
  /\ _eventListener (obj (snd (getKey now w))) = _eventListener (obj w).
Proof.
  rewrite getKey_eq. cbn [snd obj]. unfold getKey_branches.
  destruct (negb (Ascii.eqb (scanned w) (_lastKey (obj w)))).
  - destruct (usub now (_lastChange (obj w)) >? _debounceTime (obj w));
      unfold same_config; cbn; repeat split.
  - destruct (nonzero (scanned w) && negb (_holding (obj w))
              && (usub now (_pressStart (obj w)) >=? _holdTime (obj w)));
      unfold same_config; cbn; repeat split.
Qed.

(** C2. Transition semantics of one poll.  With [k] the character found by
    the sweep and [now] the clock: [getKey] returns [k] and leaves
    [_lastKey = k] in every case and never touches the configuration; when
    [k] differs from [_lastKey] and [now - _lastChange], computed on
    [unsigned long], is strictly greater than [_debounceTime], then
    [_lastChange] and [_pressStart] become [now], [_holding] is cleared,
    [_keyState] becomes PRESSED for a nonzero [k] and RELEASED for 0, and
    the listener (when one is registered) is called once with [k]; when
    [k] differs and the interval is at most [_debounceTime] (so also when
    it is exactly [_debounceTime]), nothing but [_lastKey] changes and the
    listener is not called.  While the clock has not wrapped, the
    [unsigned long] difference is the plain difference. *)
Theorem getKey_transition (now : Z) (w : World) :
  let k := scanned w in
  let kp := obj w in
  let w' := snd (getKey now w) in
  fst (getKey now w) = k
  /\ _lastKey (obj w') = k
  /\ same_config kp (obj w')
  /\ _debounceTime (obj w') = _debounceTime kp
  /\ _holdTime (obj w') = _holdTime kp
  /\ _eventListener (obj w') = _eventListener kp
  /\ (k <> _lastKey kp ->
      usub now (_lastChange kp) > _debounceTime kp ->
      _lastChange (obj w') = now
      /\ _pressStart (obj w') = now
      /\ _holding (obj w') = false
      /\ _keyState (obj w') = (if nonzero k then KEY_PRESSED else KEY_RELEASED)
      /\ calls w' = (if _eventListener kp
                     then calls w ++ [mkDispatch k (_keyState (obj w'))]
                     else calls w))
  /\ (k <> _lastKey kp ->
      usub now (_lastChange kp) <= _debounceTime kp ->
      obj w' = set_lastKey k kp /\ calls w' = calls w)
  /\ (0 <= _lastChange kp <= now -> now < ULONG_MODULUS ->
      usub now (_lastChange kp) = now - _lastChange kp).
Proof.
  intros k kp w'.
  destruct (getKey_keeps_settings now w) as (C1 & C2 & C3 & C4).
  split; [rewrite getKey_eq; reflexivity|].
  split; [unfold w'; rewrite getKey_eq; reflexivity|].
  split; [exact C1|]. split; [exact C2|]. split; [exact C3|].
  split; [exact C4|].
  unfold w'. rewrite getKey_eq. cbn [fst snd obj calls]. fold k kp.
  split.
  - intros Hk Ht. rewrite (branches_accept kp (calls w) k now Hk Ht).
    cbn [fst snd]. unfold notify. cbn. repeat split.
  - split.
    + intros Hk Ht. rewrite (branches_suppress kp (calls w) k now Hk Ht).
      cbn [fst snd]. split; reflexivity.
    + intros Hmono Hrange. apply usub_no_wrap; assumption.
Qed.

(** ** Reachable states *)

Section Reachable.

Variables (userKeymap : list (list ascii)) (rowPins colPins : list pin).
Variables (numRows numCols : nat) (hw : Hardware).

Lemma reachable_run (prog : list Action) (w : World) :
  reachable userKeymap rowPins colPins numRows numCols hw w ->
  reachable userKeymap rowPins colPins numRows numCols hw (run prog w).
Proof.
  revert w. induction prog as [|a prog IH]; intros w Hw; cbn.
  - exact Hw.
  - apply IH. apply reachable_step. exact Hw.
Qed.

(** X15. The latch and the HOLD state go together: [_holding] is set
    exactly where [_keyState] becomes HOLD and cleared exactly where it
    becomes something else, so in every reachable state [_holding] is true
    exactly when [_keyState] is HOLD. *)
Lemma holding_iff_hold (w : World) :
  reachable userKeymap rowPins colPins numRows numCols hw w ->
  (_holding (obj w) = true <-> _keyState (obj w) = KEY_HOLD).
Proof.
  induction 1 as [|w a Hw IH].
  - cbn. split; discriminate.
  - destruct a; cbn [perform with_obj with_board obj]; try exact IH.
    rewrite getKey_eq. cbn [snd obj]. unfold getKey_branches.
    destruct (negb (Ascii.eqb (scanned w) (_lastKey (obj w)))).
    + destruct (usub now (_lastChange (obj w)) >? _debounceTime (obj w));
        cbn; [|exact IH].
      destruct (nonzero (scanned w)); split; discriminate.
    + destruct (nonzero (scanned w) && negb (_holding (obj w))
                && (usub now (_pressStart (obj w)) >=? _holdTime (obj w)));
        cbn; [|exact IH].
      split; reflexivity.
Qed.

(** X16. Both timestamps are written together: in every reachable state
    [_pressStart] equals [_lastChange], so the hold time runs from the
    last accepted change. *)
Lemma pressStart_is_lastChange (w : World) :
  reachable userKeymap rowPins colPins numRows numCols hw w ->
  _pressStart (obj w) = _lastChange (obj w).
Proof.
  induction 1 as [|w a Hw IH].
  - reflexivity.
  - destruct a; cbn [perform with_obj with_board obj]; try exact IH.
    rewrite getKey_eq. cbn [snd obj]. unfold getKey_branches.
    destruct (negb (Ascii.eqb (scanned w) (_lastKey (obj w)))).
    + destruct (usub now (_lastChange (obj w)) >? _debounceTime (obj w));
        cbn; [reflexivity | exact IH].
    + destruct (nonzero (scanned w) && negb (_holding (obj w))
                && (usub now (_pressStart (obj w)) >=? _holdTime (obj w)));
        cbn; exact IH.
Qed.

End Reachable.

(** ** Polls in a row *)

Lemma polls_app ticks1 ticks2 (w : World) :
  polls (ticks1 ++ ticks2) w = polls ticks2 (polls ticks1 w).
Proof. unfold polls. apply fold_left_app. Qed.

Lemma sustained_app K ticks1 ticks2 (w : World) :
  sustained K (ticks1 ++ ticks2) w <->
  sustained K ticks1 w /\ sustained K ticks2 (polls ticks1 w).
Proof.
  revert w. induction ticks1 as [|tick rest IH]; intros w; cbn.
  - tauto.
  - rewrite IH. tauto.
Qed.

Lemma poll_obj env now (w : World) :
  obj (poll env now w) =
  set_lastKey (scanned (with_board env w))
    (fst (getKey_branches (obj w) (calls w) (scanned (with_board env w)) now)).
Proof. unfold poll. rewrite getKey_eq. reflexivity. Qed.

Lemma poll_calls env now (w : World) :
  calls (poll env now w) =
  snd (getKey_branches (obj w) (calls w) (scanned (with_board env w)) now).
Proof. unfold poll. rewrite getKey_eq. reflexivity. Qed.

(** A poll that finds the accepted key again, before the hold time or
    with the latch set, changes nothing. *)
Lemma poll_idle env now (w : World) :
  scanned (with_board env w) = _lastKey (obj w) ->
  _holding (obj w) = true
  \/ usub now (_pressStart (obj w)) < _holdTime (obj w) ->
  obj (poll env now w) = obj w /\ calls (poll env now w) = calls w.
Proof.
  intros Hk Hc. rewrite poll_obj, poll_calls.
  rewrite branches_idle by (auto; tauto).
  cbn [fst snd]. rewrite Hk. split; [apply set_lastKey_same | reflexivity].
Qed.

Lemma polls_before_threshold K ticks (w : World) :
  _lastKey (obj w) = K ->
  sustained K ticks w ->
  Forall (fun tick => usub (snd tick) (_pressStart (obj w)) < _holdTime (obj w))
         ticks ->
  obj (polls ticks w) = obj w /\ calls (polls ticks w) = calls w.
Proof.
  revert w. induction ticks as [|[env now] rest IH]; intros w HK Hs Hf.
  - split; reflexivity.
  - cbn in Hs. destruct Hs as [Hscan Hrest]. inversion Hf as [|? ? Hnow Hf']; subst.
    cbn [snd] in Hnow.
    destruct (poll_idle env now w) as [Ho Hc]; [congruence | auto |].
    cbn [polls fold_left fst snd]. fold (polls rest (poll env now w)).
    destruct (IH (poll env now w)) as [Ho' Hc'].
    + rewrite Ho. reflexivity.
    + exact Hrest.
    + rewrite Ho. exact Hf'.
    + rewrite Ho', Hc'. auto.
Qed.

Lemma polls_while_latched K ticks (w : World) :
  _lastKey (obj w) = K -> _holding (obj w) = true ->
  sustained K ticks w ->
  obj (polls ticks w) = obj w /\ calls (polls ticks w) = calls w.
Proof.
  revert w. induction ticks as [|[env now] rest IH]; intros w HK Hh Hs.
  - split; reflexivity.
  - cbn in Hs. destruct Hs as [Hscan Hrest].
    destruct (poll_idle env now w) as [Ho Hc]; [congruence | auto |].
    cbn [polls fold_left fst snd]. fold (polls rest (poll env now w)).
    destruct (IH (poll env now w)) as [Ho' Hc']; rewrite ?Ho; auto.
    rewrite Ho', Hc'. auto.
Qed.

(** A poll that accepts no change either leaves everything but
    [_lastKey] alone, or finds the latch clear and enters the hold. *)
Lemma poll_without_accept env now (w : World) :
  ~ accepts now (with_board env w) ->
  (obj (poll env now w) = set_lastKey (scanned (with_board env w)) (obj w)
   /\ calls (poll env now w) = calls w)
  \/ (_holding (obj w) = false
      /\ obj (poll env now w)
         = set_lastKey (scanned (with_board env w)) (enter_hold (obj w))
      /\ calls (poll env now w)
         = notify (enter_hold (obj w)) (scanned (with_board env w)) (calls w)).
Proof.
  intros Hno. rewrite poll_obj, poll_calls. unfold getKey_branches.
  destruct (Ascii.eqb_spec (scanned (with_board env w)) (_lastKey (obj w)))
    as [E|N]; cbn [negb].
  - destruct (_holding (obj w)).
    + rewrite andb_false_r. cbn. left. split; reflexivity.
    + destruct (nonzero (scanned (with_board env w)) && negb false
                && (usub now (_pressStart (obj w)) >=? _holdTime (obj w))).
      * right. cbn. repeat split.
      * left. cbn. split; reflexivity.
  - destruct (Z.gtb_spec (usub now (_lastChange (obj w)))
                         (_debounceTime (obj w))) as [Hgt|Hle].
    + exfalso. apply Hno. split; [exact N | cbn [obj with_board]; lia].
    + left. cbn. split; reflexivity.
Qed.

(** Between two accepted changes the listener hears of one hold at most,
    and of none once the latch is set. *)
Lemma one_hold_between_accepts ticks :
  forall w,
    no_accept ticks w ->
    (_holding (obj w) = true -> calls (polls ticks w) = calls w)
    /\ exists extra,
         calls (polls ticks w) = calls w ++ extra
         /\ (length extra <= 1)%nat
         /\ Forall (fun d => seen d = KEY_HOLD) extra.
Proof.
  induction ticks as [|[env now] rest IH]; intros w Hq.
  - split; [reflexivity|]. exists []. rewrite app_nil_r.
    repeat split; [cbn; lia | constructor].
  - cbn in Hq. destruct Hq as [Hno Hrest].
    cbn [polls fold_left fst snd]. fold (polls rest (poll env now w)).
    destruct (IH _ Hrest) as [IHlatched (extra & Hextra & Hlen & Hall)].
    destruct (poll_without_accept env now w Hno)
      as [[Ho Hc] | (Hh & Ho & Hc)].
    + split.
      * intros Hlatched. rewrite IHlatched; [exact Hc|].
        rewrite Ho. exact Hlatched.
      * exists extra. rewrite Hextra, Hc. auto.
    + split; [rewrite Hh; discriminate|].
      rewrite IHlatched by (rewrite Ho; reflexivity).
      rewrite Hc. unfold notify. cbn [_eventListener enter_hold _keyState].
      destruct (_eventListener (obj w)).
      * eexists. split; [reflexivity|]. split; [cbn; lia|].
        constructor; [reflexivity | constructor].
      * exists []. rewrite app_nil_r. repeat split; [cbn; lia | constructor].
Qed.

(** C5. Hold entry and exclusivity.  From a state whose accepted key [K]
    is nonzero and whose latch is clear (as it is once a press has been
    accepted), while every poll finds [K]: the polls made before
    [now - _pressStart] reaches [_holdTime] change nothing and call nobody;
    the first poll with [now - _pressStart >= _holdTime] (equality
    included) sets [_keyState] to HOLD, sets [_holding] and calls the
    listener exactly once with [K]; every later poll of the same press
    calls nobody, so the press gives one HOLD event at most.  More
    generally, over any polls among which no change is accepted, whatever
    they find, the listener is called at most once, for a hold. *)
Theorem hold_entered_once (K : ascii) (w : World)
    (pre post : list ((Hardware -> Hardware) * Z))
    (env : Hardware -> Hardware) (now : Z) :
  K <> NO_KEY ->
  _lastKey (obj w) = K ->
  _holding (obj w) = false ->
  sustained K (pre ++ (env, now) :: post) w ->
  Forall (fun tick => usub (snd tick) (_pressStart (obj w)) < _holdTime (obj w))
         pre ->
  usub now (_pressStart (obj w)) >= _holdTime (obj w) ->
  let w1 := polls pre w in
  let w2 := poll env now w1 in
  let w3 := polls post w2 in
  obj w1 = obj w /\ calls w1 = calls w
  /\ _keyState (obj w2) = KEY_HOLD /\ _holding (obj w2) = true
  /\ calls w2 = (if _eventListener (obj w)
                 then calls w ++ [mkDispatch K KEY_HOLD]
                 else calls w)
  /\ obj w3 = obj w2 /\ calls w3 = calls w2
  /\ polls (pre ++ (env, now) :: post) w = w3
  /\ forall ticks w0,
       no_accept ticks w0 ->
       exists extra,
         calls (polls ticks w0) = calls w0 ++ extra
         /\ (length extra <= 1)%nat
         /\ Forall (fun d => seen d = KEY_HOLD) extra.
Proof.
  intros HK0 HK Hh Hs Hpre Hnow w1 w2 w3.
  apply sustained_app in Hs. destruct Hs as [Hs1 Hs2].
  cbn in Hs2. destruct Hs2 as [Hscan Hs3]. fold w1 in Hscan, Hs3. fold w2 in Hs3.
  destruct (polls_before_threshold K pre w HK Hs1 Hpre) as [Ho1 Hc1].
  fold w1 in Ho1, Hc1.
  assert (Hb : getKey_branches (obj w1) (calls w1) K now =
               (enter_hold (obj w), notify (enter_hold (obj w)) K (calls w))).
  { rewrite Ho1, Hc1. apply branches_hold; auto. }
  assert (Ho2 : obj w2 = set_lastKey K (enter_hold (obj w))).
  { unfold w2. rewrite poll_obj, Hscan, Hb. reflexivity. }
  assert (Hc2 : calls w2 = notify (enter_hold (obj w)) K (calls w)).
  { unfold w2. rewrite poll_calls, Hscan, Hb. reflexivity. }
  destruct (polls_while_latched K post w2) as [Ho3 Hc3];
    [rewrite Ho2; reflexivity | rewrite Ho2; reflexivity | exact Hs3 |].
  fold w3 in Ho3, Hc3.
  split; [exact Ho1|]. split; [exact Hc1|].
  split; [rewrite Ho2; reflexivity|].
  split; [rewrite Ho2; reflexivity|].
  split; [rewrite Hc2; unfold notify; cbn; reflexivity|].
  split; [exact Ho3|]. split; [exact Hc3|].
  split; [rewrite polls_app; reflexivity|].
  intros ticks w0 Hquiet. apply one_hold_between_accepts. exact Hquiet.
Qed.

(** C9. A key pressed twice by one bounced sample.  [K], nonzero, is
    accepted by the poll at [t0]; the poll at [t1], at most [_debounceTime]
    after [t0], finds no key and is suppressed; the poll at [t2], more than
    [_debounceTime] after [t0], finds [K] again.  That last poll accepts
    [K] as a new press: the listener is called with [K] a second time,
    [_keyState] is PRESSED, [_pressStart] and [_lastChange] are [t2]; and
    the listener was never called with 0 in between. *)
Theorem bounced_key_pressed_twice (K : ascii) (w : World)
    (env0 env1 env2 : Hardware -> Hardware) (t0 t1 t2 : Z) :
  let w0 := poll env0 t0 w in
  let w1 := poll env1 t1 w0 in
  let w2 := poll env2 t2 w1 in
  K <> NO_KEY ->
  scanned (with_board env0 w) = K ->
  K <> _lastKey (obj w) ->
  usub t0 (_lastChange (obj w)) > _debounceTime (obj w) ->
  scanned (with_board env1 w0) = NO_KEY ->
  usub t1 t0 <= _debounceTime (obj w) ->
  scanned (with_board env2 w1) = K ->
  usub t2 t0 > _debounceTime (obj w) ->
  calls w0 = notify (accept_change (obj w) K t0) K (calls w)
  /\ calls w1 = calls w0
  /\ _keyState (obj w1) = KEY_PRESSED
  /\ _pressStart (obj w1) = t0
  /\ _keyState (obj w2) = KEY_PRESSED
  /\ _pressStart (obj w2) = t2
  /\ _lastChange (obj w2) = t2
  /\ _holding (obj w2) = false
  /\ calls w2 = (if _eventListener (obj w)
                 then calls w ++ [mkDispatch K KEY_PRESSED;
                                  mkDispatch K KEY_PRESSED]
                 else calls w).
Proof.
  intros w0 w1 w2 HK0 Hs0 Hn0 Ht0 Hs1 Ht1 Hs2 Ht2.
  pose proof (proj2 (nonzero_true K) HK0) as HnzK.
  assert (Ho0 : obj w0 = set_lastKey K (accept_change (obj w) K t0)).
  { unfold w0. rewrite poll_obj, Hs0, branches_accept by assumption. reflexivity. }
  assert (Hc0 : calls w0 = notify (accept_change (obj w) K t0) K (calls w)).
  { unfold w0. rewrite poll_calls, Hs0, branches_accept by assumption. reflexivity. }
  assert (Hb1 : getKey_branches (obj w0) (calls w0) NO_KEY t1 = (obj w0, calls w0)).
  { apply branches_suppress; rewrite Ho0; cbn; [congruence | assumption]. }
  assert (Ho1 : obj w1 = set_lastKey NO_KEY (obj w0)).
  { unfold w1. rewrite poll_obj, Hs1, Hb1. reflexivity. }
  assert (Hc1 : calls w1 = calls w0).
  { unfold w1. rewrite poll_calls, Hs1, Hb1. reflexivity. }
  assert (Hb2 : getKey_branches (obj w1) (calls w1) K t2 =
                (accept_change (obj w1) K t2,
                 notify (accept_change (obj w1) K t2) K (calls w1))).
  { apply branches_accept; rewrite Ho1, Ho0; cbn; assumption. }
  assert (Ho2 : obj w2 = set_lastKey K (accept_change (obj w1) K t2)).
  { unfold w2. rewrite poll_obj, Hs2, Hb2. reflexivity. }
  assert (Hc2 : calls w2 = notify (accept_change (obj w1) K t2) K (calls w1)).
  { unfold w2. rewrite poll_calls, Hs2, Hb2. reflexivity. }
  split; [exact Hc0|]. split; [exact Hc1|].
  split; [rewrite Ho1, Ho0; cbn; rewrite HnzK; reflexivity|].
  split; [rewrite Ho1, Ho0; reflexivity|].
  split; [rewrite Ho2; cbn; rewrite HnzK; reflexivity|].
  split; [rewrite Ho2; reflexivity|].
  split; [rewrite Ho2; reflexivity|].
  split; [rewrite Ho2; reflexivity|].
  rewrite Hc2, Hc1, Hc0, Ho1, Ho0. unfold notify. cbn. rewrite HnzK.
  destruct (_eventListener (obj w)); [|reflexivity].
  rewrite <- app_assoc. reflexivity.
Qed.

(** ** The column pins around a sweep *)

(** Energising a pin and restoring it leaves it at LOW and the others as
    they were. *)
Lemma pulse_cols_low (kp : CustomKeypad) (hw : Hardware) (p : pin) :
  cols_low kp hw ->
  cols_low kp (digitalWrite p LOW (delayMicroseconds 10 (digitalWrite p HIGH hw))).
Proof.
  intros H c Hc. cbn.
  destruct (N.eqb (col_pin kp c) p); [reflexivity | apply H; exact Hc].
Qed.

Lemma cols_low_config (a b : CustomKeypad) (hw : Hardware) :
  same_config a b -> cols_low a hw -> cols_low b hw.
Proof.
  intros (_ & Hc & _ & Hn & _) H c Hlt. unfold col_pin.
  rewrite <- Hc. apply H. rewrite Hn. exact Hlt.
Qed.

Lemma scan_cols_low (kp : CustomKeypad) (cs : list nat) :
  forall hw, cols_low kp hw -> cols_low kp (snd (scan_cols kp hw cs)).
Proof.
  induction cs as [|c cs IH]; intros hw H; cbn [scan_cols].
  - exact H.
  - destruct (scan_rows kp _ c (seq 0 (_numRows kp))) as [k|]; cbn [snd].
    + apply pulse_cols_low. exact H.
    + apply IH. apply pulse_cols_low. exact H.
Qed.

Lemma getKeys_cols_low (kp : CustomKeypad) (maxKeys : nat) (cs : list nat) :
  forall hw count stores,
    cols_low kp hw ->
    cols_low kp (snd (getKeys_cols kp hw cs maxKeys count stores)).
Proof.
  induction cs as [|c cs IH]; intros hw count stores H; cbn [getKeys_cols].
  - exact H.
  - destruct (getKeys_rows kp _ c (seq 0 (_numRows kp)) maxKeys count stores)
      as [count' stores'].
    apply IH. apply pulse_cols_low. exact H.
Qed.

Lemma getKeys_eq (maxKeys : nat) (w : World) :
  getKeys maxKeys w =
  (fst (getKeys_cols (obj w) (board w) (seq 0 (_numCols (obj w))) maxKeys 0%nat []),
   {| obj := obj w;
      board := snd (getKeys_cols (obj w) (board w) (seq 0 (_numCols (obj w)))
                                 maxKeys 0%nat []);
      calls := calls w |}).
Proof.
  unfold getKeys.
  destruct (getKeys_cols (obj w) (board w) (seq 0 (_numCols (obj w)))
                         maxKeys 0%nat []) as [[count stores] hw'].
  reflexivity.
Qed.

(** [begin] leaves every column pin an output at LOW. *)
Lemma begin_cols_ready (kp : CustomKeypad) (hw : Hardware) :
  (forall r c, (r < _numRows kp)%nat -> (c < _numCols kp)%nat ->
               row_pin kp r <> col_pin kp c) ->
  cols_low kp (begin kp hw) /\ cols_output kp (begin kp hw).
Proof.
  intros Hdisj.
  assert (Hcols : forall n hw0,
             (n <= _numCols kp)%nat ->
             let h := fold_left (fun h c => digitalWrite (col_pin kp c) LOW
                                              (pinMode (col_pin kp c) OUTPUT h))
                                (seq 0 n) hw0 in
             forall c, (c < n)%nat ->
                       levels h (col_pin kp c) = LOW
                       /\ modes h (col_pin kp c) = OUTPUT).
  { induction n as [|n IH]; intros hw0 Hn h c Hc; [lia|].
    subst h. rewrite seq_S, fold_left_app. cbn.
    destruct (N.eqb (col_pin kp c) (col_pin kp n)) eqn:E; [split; reflexivity|].
    apply IH; [lia|].
    assert (c <> n) by (intros ->; rewrite N.eqb_refl in E; discriminate).
    lia. }
  assert (Hrows : forall n h0,
             (n <= _numRows kp)%nat ->
             let h := fold_left (fun h r => pinMode (row_pin kp r) INPUT h)
                                (seq 0 n) h0 in
             forall c, (c < _numCols kp)%nat ->
                       levels h (col_pin kp c) = levels h0 (col_pin kp c)
                       /\ modes h (col_pin kp c) = modes h0 (col_pin kp c)).
  { induction n as [|n IH]; intros h0 Hn h c Hc; [split; reflexivity|].
    subst h. rewrite seq_S, fold_left_app. cbn.
    destruct (N.eqb (col_pin kp c) (row_pin kp n)) eqn:E.
    - apply N.eqb_eq in E. exfalso. apply (Hdisj n c); [lia | exact Hc | auto].
    - apply IH; [lia | exact Hc]. }
  unfold begin, begin_rows, begin_cols.
  split; intros c Hc;
    destruct (Hrows (_numRows kp) (fold_left
                (fun h c => digitalWrite (col_pin kp c) LOW
                              (pinMode (col_pin kp c) OUTPUT h))
                (seq 0 (_numCols kp)) hw) (Nat.le_refl _) c Hc) as [Hl Hm];
    destruct (Hcols (_numCols kp) hw (Nat.le_refl _) c Hc) as [Hl' Hm'];
    congruence.
Qed.

(** C6. Column pins after a scan.  When every column pin is at LOW on
    entry, every column pin is at LOW after [scanKeypad] (whether it left
    through its early [return] or not), after [getKey] and after
    [getKeys]. *)
Theorem cols_low_after_scan (now : Z) (maxKeys : nat) (w : World) :
  cols_low (obj w) (board w) ->
  cols_low (obj w) (snd (scanKeypad (obj w) (board w)))
  /\ cols_low (obj (snd (getKey now w))) (board (snd (getKey now w)))
  /\ cols_low (obj (snd (getKeys maxKeys w))) (board (snd (getKeys maxKeys w))).
Proof.
  intros H.
  assert (Hscan : cols_low (obj w) (snd (scanKeypad (obj w) (board w)))).
  { unfold scanKeypad. apply scan_cols_low. exact H. }
  split; [exact Hscan|]. split.
  - destruct (getKey_keeps_settings now w) as (Hcfg & _).
    apply (cols_low_config (obj w)); [exact Hcfg|].
    rewrite getKey_eq. cbn [snd board]. exact Hscan.
  - rewrite getKeys_eq. cbn [snd obj board].
    apply getKeys_cols_low. exact H.
Qed.

(** ** The stores of [getKeys] *)

Lemma byte_incr_small (n : nat) : (n < 255)%nat -> byte_incr n = S n.
Proof.
  intros H. unfold byte_incr. rewrite Nat.mod_small by lia. lia.
Qed.

Section StoreBounds.

Variables (kp : CustomKeypad) (maxKeys : nat).
Hypothesis maxKeys_byte : (maxKeys <= 255)%nat.

Lemma getKeys_rows_filled hw c rs :
  forall count stores,
    filled maxKeys count stores ->
    filled maxKeys (fst (getKeys_rows kp hw c rs maxKeys count stores))
           (snd (getKeys_rows kp hw c rs maxKeys count stores)).
Proof.
  induction rs as [|r rs IH]; intros count stores [Hle Hidx]; cbn [getKeys_rows].
  - split; assumption.
  - destruct (digitalRead hw (row_pin kp r)); [|apply IH; split; assumption].
    destruct (Nat.ltb_spec count maxKeys) as [Hlt|Hge];
      [|apply IH; split; assumption].
    apply IH. rewrite byte_incr_small by lia. split; [lia|].
    rewrite map_app, Hidx, seq_S. reflexivity.
Qed.

Lemma getKeys_cols_filled cs :
  forall hw count stores,
    filled maxKeys count stores ->
    filled maxKeys (fst (fst (getKeys_cols kp hw cs maxKeys count stores)))
           (snd (fst (getKeys_cols kp hw cs maxKeys count stores))).
Proof.
  induction cs as [|c cs IH]; intros hw count stores H; cbn [getKeys_cols].
  - exact H.
  - pose proof (getKeys_rows_filled
                  (delayMicroseconds 10 (digitalWrite (col_pin kp c) HIGH hw))
                  c (seq 0 (_numRows kp)) count stores H) as H'.
    destruct (getKeys_rows kp _ c (seq 0 (_numRows kp)) maxKeys count stores)
      as [count' stores'].
    apply IH. exact H'.
Qed.

End StoreBounds.

Lemma numbered_of_indices (stores : list Store) :
  forall i n, map index stores = seq i n ->
              stores = numbered i (map value stores).
Proof.
  induction stores as [|[j k] stores IH]; intros i n H.
  - reflexivity.
  - destruct n as [|n]; [discriminate|].
    cbn in H. injection H as Hj Hrest. subst j.
    cbn. f_equal. apply (IH (S i) n). exact Hrest.
Qed.

Lemma numbered_length i ks : length (numbered i ks) = length ks.
Proof.
  revert i. induction ks as [|k ks IH]; intros i; cbn; [reflexivity|].
  rewrite IH. reflexivity.
Qed.

Lemma numbered_app i ks1 ks2 :
  numbered i (ks1 ++ ks2) = numbered i ks1 ++ numbered (i + length ks1) ks2.
Proof.
  revert i. induction ks1 as [|k ks1 IH]; intros i; cbn.
  - rewrite Nat.add_0_r. reflexivity.
  - rewrite IH. rewrite Nat.add_succ_r. reflexivity.
Qed.

Lemma poke_next (pre rest : list ascii) (x k : ascii) :
  poke (Some (pre ++ x :: rest)) (mkStore (length pre) k)
  = Some (pre ++ k :: rest).
Proof.
  unfold poke. cbn [index value].
  destruct (Nat.ltb_spec (length pre) (length (pre ++ x :: rest))) as [_|H].
  - f_equal. f_equal.
    + induction pre as [|a pre IH]; cbn; [reflexivity | rewrite IH; reflexivity].
    + f_equal. induction pre as [|a pre IH]; cbn; [reflexivity | exact IH].
  - rewrite length_app in H. cbn in H. lia.
Qed.

(** Consecutive stores overwrite a prefix of the buffer and nothing else. *)
Lemma buffer_after_numbered (ks : list ascii) :
  forall pre rest,
    (length ks <= length rest)%nat ->
    fold_left poke (numbered (length pre) ks) (Some (pre ++ rest))
    = Some (pre ++ ks ++ skipn (length ks) rest).
Proof.
  induction ks as [|k ks IH]; intros pre rest H.
  - reflexivity.
  - destruct rest as [|x rest]; [cbn in H; lia|].
    cbn [numbered fold_left]. rewrite poke_next.
    replace (pre ++ k :: rest) with ((pre ++ [k]) ++ rest)
      by (rewrite <- app_assoc; reflexivity).
    replace (S (length pre)) with (length (pre ++ [k]))
      by (rewrite length_app; cbn; lia).
    rewrite IH by (cbn in H; lia).
    rewrite <- app_assoc. reflexivity.
Qed.

(** C10. Bounds of the stores of [getKeys].  For every board and every
    [maxKeys] (a [byte]): every store into [keysBuffer] is at an index
    strictly below [maxKeys]; the returned count is at most [maxKeys] and
    is the number of stores made, which fill the cells 0, 1, ... in that
    order; so a buffer of at least [maxKeys] cells is never overrun, and
    its cells from the count on are left as they were. *)
Theorem getKeys_within_bounds (maxKeys : nat) (w : World) :
  (maxKeys <= 255)%nat ->
  let count := fst (fst (getKeys maxKeys w)) in
  let stores := snd (fst (getKeys maxKeys w)) in
  Forall (fun s => (index s < maxKeys)%nat) stores
  /\ (count <= maxKeys)%nat
  /\ count = length stores
  /\ map index stores = seq 0 count
  /\ forall keysBuffer,
       (maxKeys <= length keysBuffer)%nat ->
       exists cells,
         buffer_after keysBuffer stores = Some cells
         /\ length cells = length keysBuffer
         /\ skipn count cells = skipn count keysBuffer.
Proof.
  intros Hmax count stores.
  assert (Hf : filled maxKeys count stores).
  { unfold count, stores. rewrite getKeys_eq. cbn [fst snd].
    apply getKeys_cols_filled; [exact Hmax|].
    split; [lia | reflexivity]. }
  destruct Hf as [Hle Hidx].
  assert (Hlen : count = length stores).
  { rewrite <- (length_map index stores), Hidx, length_seq. reflexivity. }
  split.
  { apply Forall_forall. intros s Hs.
    assert (Hin : In (index s) (seq 0 count))
      by (rewrite <- Hidx; apply in_map; exact Hs).
    apply in_seq in Hin. lia. }
  split; [exact Hle|]. split; [exact Hlen|]. split; [exact Hidx|].
  intros buf Hbuf.
  pose proof (numbered_of_indices stores 0 count Hidx) as Hnum.
  assert (Hvals : length (map value stores) = count)
    by (rewrite length_map; auto).
  exists (map value stores ++ skipn count buf).
  unfold buffer_after. rewrite Hnum at 1.
  pose proof (buffer_after_numbered (map value stores) [] buf) as Hb.
  cbn [length app] in Hb. rewrite Hb by lia. rewrite Hvals.
  split; [reflexivity|]. split.
  - rewrite length_app, length_skipn, Hvals. lia.
  - rewrite <- Hvals at 1. rewrite skipn_app, skipn_all, Nat.sub_diag.
    reflexivity.
Qed.

(** ** What a sweep reads *)

Lemma existsb_seq_only (n i : nat) (g f : nat -> bool) :
  (i < n)%nat ->
  (forall j, (j < n)%nat -> g j = Nat.eqb j i) ->
  existsb (fun j => g j && f j) (seq 0 n) = f i.
Proof.
  intros Hi Hg. apply eq_true_iff_eq. rewrite existsb_exists. split.
  - intros (j & Hin & Hj). apply in_seq in Hin.
    apply andb_prop in Hj. destruct Hj as [Hgj Hfj].
    rewrite Hg in Hgj by lia. apply Nat.eqb_eq in Hgj. subst j. exact Hfj.
  - intros Hf. exists i. split; [apply in_seq; lia|].
    rewrite Hg by exact Hi. rewrite Nat.eqb_refl. exact Hf.
Qed.

Section Energised.

Variables (kp : CustomKeypad) (hw : Hardware).
Hypothesis Hready : ready kp hw.

Lemma pin_eqb_nth (l : list pin) (i j : nat) :
  NoDup l -> (i < length l)%nat -> (j < length l)%nat ->
  N.eqb (nth i l 0%N) (nth j l 0%N) = Nat.eqb i j.
Proof.
  intros Hnd Hi Hj.
  destruct (Nat.eqb_spec i j) as [->|Hne].
  - apply N.eqb_refl.
  - apply N.eqb_neq. intros E. apply Hne.
    apply (proj1 (NoDup_nth l 0%N) Hnd i j Hi Hj E).
Qed.

(** With column [c] energised, [c] is the one active column. *)
Lemma col_active_energised (c c' : nat) :
  (c < _numCols kp)%nat -> (c' < _numCols kp)%nat ->
  col_active (digitalWrite (col_pin kp c) HIGH hw) c' = Nat.eqb c' c.
Proof.
  intros Hc Hc'.
  destruct Hready as ((_ & Hcl & _ & Hlc & _ & Hnd) & Hlow & Hout).
  unfold col_active. cbn [modes levels col_lines digitalWrite].
  rewrite Hcl. fold (col_pin kp c'). rewrite (Hout c' Hc'). cbn [is_output andb].
  unfold col_pin. rewrite pin_eqb_nth by (auto; lia).
  destruct (Nat.eqb c' c); [reflexivity|].
  apply (Hlow c' Hc').
Qed.

(** With column [c] energised, row [r] reads HIGH exactly when the key at
    [(r, c)] is closed. *)
Lemma read_energised (c r : nat) :
  (c < _numCols kp)%nat -> (r < _numRows kp)%nat ->
  digitalRead (digitalWrite (col_pin kp c) HIGH hw) (row_pin kp r)
  = switches hw r c.
Proof.
  intros Hc Hr.
  pose proof Hready as ((Hrl & Hcl & Hlr & Hlc & Hndr & _) & _ & _).
  unfold digitalRead. cbn [row_lines digitalWrite]. rewrite Hrl, Hlr.
  rewrite (existsb_seq_only (_numRows kp) r
             (fun r' => N.eqb (nth r' (_rows kp) 0%N) (row_pin kp r))); auto.
  - unfold row_bridged. cbn [col_lines switches digitalWrite].
    rewrite Hcl, Hlc.
    apply (existsb_seq_only (_numCols kp) c
             (col_active (digitalWrite (col_pin kp c) HIGH hw))
             (switches hw r)); auto.
    intros j Hj. apply col_active_energised; assumption.
  - intros j Hj. unfold row_pin. apply pin_eqb_nth; auto; lia.
Qed.

(** Restoring the column restores what the next column needs. *)
Lemma pulse_ready (p : pin) :
  ready kp (digitalWrite p LOW (delayMicroseconds 10 (digitalWrite p HIGH hw))).
Proof.
  destruct Hready as (Hw & Hlow & Hout).
  split; [exact Hw|]. split; [apply pulse_cols_low; exact Hlow | exact Hout].
Qed.

End Energised.

(** ** What a sweep finds *)

Lemma rows_keys_cons kp hw c r rs :
  rows_keys kp hw c (r :: rs) =
  if switches hw r c
  then keymap_at kp r c :: rows_keys kp hw c rs
  else rows_keys kp hw c rs.
Proof.
  unfold rows_keys. cbn [filter]. destruct (switches hw r c); reflexivity.
Qed.

Lemma rows_keys_app kp hw c rs1 rs2 :
  rows_keys kp hw c (rs1 ++ rs2) = rows_keys kp hw c rs1 ++ rows_keys kp hw c rs2.
Proof.
  unfold rows_keys. rewrite filter_app, map_app. reflexivity.
Qed.

Lemma rows_keys_open kp hw c rs :
  (forall r, In r rs -> switches hw r c = false) -> rows_keys kp hw c rs = [].
Proof.
  induction rs as [|r rs IH]; intros H; [reflexivity|].
  rewrite rows_keys_cons, (H r (or_introl eq_refl)).
  apply IH. intros r' Hr'. apply H. right. exact Hr'.
Qed.

Lemma rows_keys_same kp hw hw2 c rs :
  (forall r, In r rs -> switches hw2 r c = switches hw r c) ->
  rows_keys kp hw2 c rs = rows_keys kp hw c rs.
Proof.
  induction rs as [|r rs IH]; intros H; [reflexivity|].
  rewrite !rows_keys_cons, (H r (or_introl eq_refl)), IH; [reflexivity|].
  intros r' Hr'. apply H. right. exact Hr'.
Qed.

Lemma seq_split (i n : nat) :
  (i < n)%nat -> seq 0 n = seq 0 i ++ i :: seq (S i) (n - S i).
Proof.
  intros H. replace n with (i + S (n - S i))%nat at 1 by lia.
  rewrite seq_app. reflexivity.
Qed.

Lemma flat_map_empty {A B} (f : A -> list B) (l : list A) :
  (forall x, In x l -> f x = []) -> flat_map f l = [].
Proof.
  induction l as [|x l IH]; intros H; [reflexivity|].
  cbn. rewrite (H x (or_introl eq_refl)). apply IH.
  intros y Hy. apply H. right. exact Hy.
Qed.

Section Sweep.

Variable kp : CustomKeypad.

(** The row loop of [scanKeypad] stops at the first closed key of the
    energised column. *)
Lemma scan_rows_keys hw c rs :
  ready kp hw -> (c < _numCols kp)%nat ->
  (forall r, In r rs -> (r < _numRows kp)%nat) ->
  scan_rows kp (delayMicroseconds 10 (digitalWrite (col_pin kp c) HIGH hw)) c rs
  = match rows_keys kp hw c rs with
    | [] => None
    | k :: _ => Some k
    end.
Proof.
  intros Hready Hc. unfold delayMicroseconds.
  induction rs as [|r rs IH]; intros Hrs; [reflexivity|].
  cbn [scan_rows]. rewrite rows_keys_cons.
  rewrite (read_energised kp hw Hready c r Hc (Hrs r (or_introl eq_refl))).
  destruct (switches hw r c); [reflexivity|].
  apply IH. intros r' Hr'. apply Hrs. right. exact Hr'.
Qed.

Lemma scan_cols_keys cs :
  forall hw,
    ready kp hw ->
    (forall c, In c cs -> (c < _numCols kp)%nat) ->
    fst (scan_cols kp hw cs)
    = hd NO_KEY (flat_map (fun c => rows_keys kp hw c (seq 0 (_numRows kp))) cs).
Proof.
  induction cs as [|c cs IH]; intros hw Hready Hcs; [reflexivity|].
  cbn [scan_cols flat_map].
  rewrite scan_rows_keys;
    [| exact Hready | apply Hcs; left; reflexivity
     | intros r Hr; apply in_seq in Hr; lia].
  destruct (rows_keys kp hw c (seq 0 (_numRows kp))) as [|k ks]; [|reflexivity].
  cbn [app]. rewrite IH.
  - reflexivity.
  - apply pulse_ready. exact Hready.
  - intros c' Hc'. apply Hcs. right. exact Hc'.
Qed.

(** The row loop of [getKeys] records the closed keys of the energised
    column while there is room. *)
Lemma getKeys_rows_keys maxKeys hw c rs :
  ready kp hw -> (c < _numCols kp)%nat -> (maxKeys <= 255)%nat ->
  (forall r, In r rs -> (r < _numRows kp)%nat) ->
  forall done count stores,
    recorded maxKeys done count stores ->
    recorded maxKeys (done ++ rows_keys kp hw c rs)
      (fst (getKeys_rows kp (delayMicroseconds 10
                               (digitalWrite (col_pin kp c) HIGH hw))
                         c rs maxKeys count stores))
      (snd (getKeys_rows kp (delayMicroseconds 10
                               (digitalWrite (col_pin kp c) HIGH hw))
                         c rs maxKeys count stores)).
Proof.
  intros Hready Hc Hmax. unfold delayMicroseconds.
  induction rs as [|r rs IH]; intros Hrs done count stores [Hcount Hstores].
  - unfold rows_keys. cbn. rewrite app_nil_r. split; assumption.
  - cbn [getKeys_rows]. rewrite rows_keys_cons.
    rewrite (read_energised kp hw Hready c r Hc (Hrs r (or_introl eq_refl))).
    assert (Hrs' : forall r', In r' rs -> (r' < _numRows kp)%nat)
      by (intros r' Hr'; apply Hrs; right; exact Hr').
    destruct (switches hw r c); [|apply IH; [exact Hrs' | split; assumption]].
    replace (done ++ keymap_at kp r c :: rows_keys kp hw c rs)
      with ((done ++ [keymap_at kp r c]) ++ rows_keys kp hw c rs)
      by (rewrite <- app_assoc; reflexivity).
    rewrite length_firstn in Hcount.
    destruct (Nat.ltb_spec count maxKeys) as [Hlt|Hge].
    + assert (Hlen : (length done < maxKeys)%nat) by lia.
      rewrite firstn_all2 in Hstores by lia.
      apply IH; [exact Hrs'|]. rewrite byte_incr_small by lia.
      unfold recorded.
      rewrite firstn_all2 by (rewrite length_app; cbn; lia).
      split.
      * rewrite length_app. cbn. lia.
      * rewrite numbered_app, Hstores. cbn. do 3 f_equal. lia.
    + assert (Hlen : (maxKeys <= length done)%nat) by lia.
      apply IH; [exact Hrs'|]. unfold recorded.
      rewrite firstn_app.
      replace (maxKeys - length done)%nat with 0%nat by lia.
      cbn [firstn]. rewrite app_nil_r.
      split; [rewrite length_firstn; lia | exact Hstores].
Qed.

Lemma getKeys_cols_keys maxKeys cs :
  (maxKeys <= 255)%nat ->
  forall hw done count stores,
    ready kp hw ->
    (forall c, In c cs -> (c < _numCols kp)%nat) ->
    recorded maxKeys done count stores ->
    recorded maxKeys
      (done ++ flat_map (fun c => rows_keys kp hw c (seq 0 (_numRows kp))) cs)
      (fst (fst (getKeys_cols kp hw cs maxKeys count stores)))
      (snd (fst (getKeys_cols kp hw cs maxKeys count stores))).
Proof.
  intros Hmax.
  induction cs as [|c cs IH]; intros hw done count stores Hready Hcs Hrec.
  - cbn. rewrite app_nil_r. exact Hrec.
  - cbn [getKeys_cols flat_map].
    pose proof (getKeys_rows_keys maxKeys hw c (seq 0 (_numRows kp)) Hready
                  (Hcs c (or_introl eq_refl)) Hmax
                  (fun r Hr => proj2 (proj1 (in_seq _ _ _) Hr))
                  done count stores Hrec) as Hrows.
    destruct (getKeys_rows kp _ c (seq 0 (_numRows kp)) maxKeys count stores)
      as [count' stores'].
    cbn [fst snd] in Hrows.
    rewrite app_assoc.
    apply (IH (digitalWrite (col_pin kp c) LOW
                 (delayMicroseconds 10 (digitalWrite (col_pin kp c) HIGH hw)))
              _ count' stores').
    + apply pulse_ready. exact Hready.
    + intros c' Hc'. apply Hcs. right. exact Hc'.
    + exact Hrows.
Qed.

End Sweep.

Lemma flat_map_same {A B} (f g : A -> list B) (l : list A) :
  (forall x, In x l -> f x = g x) -> flat_map f l = flat_map g l.
Proof.
  induction l as [|x l IH]; intros H; [reflexivity|].
  cbn. rewrite (H x (or_introl eq_refl)), IH; [reflexivity|].
  intros y Hy. apply H. right. exact Hy.
Qed.

Lemma closed_keys_none kp hw :
  (forall r c, (r < _numRows kp)%nat -> (c < _numCols kp)%nat ->
               switches hw r c = false) ->
  closed_keys kp hw = [].
Proof.
  intros H. unfold closed_keys. apply flat_map_empty.
  intros c Hc. apply in_seq in Hc. apply rows_keys_open.
  intros r Hr. apply in_seq in Hr. apply H; lia.
Qed.

Lemma closed_keys_first kp hw r c :
  (r < _numRows kp)%nat -> (c < _numCols kp)%nat ->
  switches hw r c = true ->
  (forall r' c', (r' < _numRows kp)%nat -> (c' < _numCols kp)%nat ->
                 switches hw r' c' = true -> sweep_le c r c' r') ->
  hd NO_KEY (closed_keys kp hw) = keymap_at kp r c.
Proof.
  intros Hr Hc Hclosed Hmin.
  assert (Hopen : forall r' c', (r' < _numRows kp)%nat -> (c' < _numCols kp)%nat ->
                    (c' < c)%nat \/ (c' = c /\ (r' < r)%nat) ->
                    switches hw r' c' = false).
  { intros r' c' Hr' Hc' Hbefore.
    destruct (switches hw r' c') eqn:E; [|reflexivity].
    destruct (Hmin r' c' Hr' Hc' E) as [Hlt | [Heq Hle]]; lia. }
  unfold closed_keys.
  rewrite (seq_split c (_numCols kp) Hc), flat_map_app.
  rewrite flat_map_empty.
  - cbn [app flat_map].
    rewrite (seq_split r (_numRows kp) Hr), rows_keys_app.
    rewrite rows_keys_open.
    + rewrite rows_keys_cons, Hclosed. reflexivity.
    + intros r' Hr'. apply in_seq in Hr'. apply Hopen; lia.
  - intros c' Hc'. apply in_seq in Hc'. apply rows_keys_open.
    intros r' Hr'. apply in_seq in Hr'. apply Hopen; lia.
Qed.

Lemma closed_keys_same kp hw hw2 :
  (forall r c, (r < _numRows kp)%nat -> (c < _numCols kp)%nat ->
               switches hw2 r c = switches hw r c) ->
  closed_keys kp hw2 = closed_keys kp hw.
Proof.
  intros H. unfold closed_keys. apply flat_map_same.
  intros c Hc. apply in_seq in Hc. apply rows_keys_same.
  intros r Hr. apply in_seq in Hr. apply H; lia.
Qed.

Lemma scanKeypad_first_key kp hw :
  ready kp hw -> fst (scanKeypad kp hw) = hd NO_KEY (closed_keys kp hw).
Proof.
  intros Hready. unfold scanKeypad, closed_keys.
  apply scan_cols_keys; [exact Hready|].
  intros c Hc. apply in_seq in Hc. lia.
Qed.

(** C7. Scan selection and determinism.  On a keypad wired as configured
    whose column pins are outputs at LOW, [scanKeypad] returns the first
    character of the closed intersections taken in sweep order; so it
    returns 0 when no intersection is closed, it returns [keymap[r][c]]
    for the closed intersection [(c, r)] that comes first in the ascending
    column-then-row order, and two boards with the same closed
    intersections give the same character. *)
Theorem scan_selects_first_closed (kp : CustomKeypad) (hw : Hardware) :
  ready kp hw ->
  fst (scanKeypad kp hw) = hd NO_KEY (closed_keys kp hw)
  /\ ((forall r c, (r < _numRows kp)%nat -> (c < _numCols kp)%nat ->
                   switches hw r c = false) ->
      fst (scanKeypad kp hw) = NO_KEY)
  /\ (forall r c,
        (r < _numRows kp)%nat -> (c < _numCols kp)%nat ->
        switches hw r c = true ->
        (forall r' c', (r' < _numRows kp)%nat -> (c' < _numCols kp)%nat ->
                       switches hw r' c' = true -> sweep_le c r c' r') ->
        fst (scanKeypad kp hw) = keymap_at kp r c)
  /\ (forall hw2,
        ready kp hw2 ->
        (forall r c, (r < _numRows kp)%nat -> (c < _numCols kp)%nat ->
                     switches hw2 r c = switches hw r c) ->
        fst (scanKeypad kp hw2) = fst (scanKeypad kp hw)).
Proof.
  intros Hready.
  pose proof (scanKeypad_first_key kp hw Hready) as Hfirst.
  split; [exact Hfirst|]. split; [|split].
  - intros Hnone. rewrite Hfirst, closed_keys_none by exact Hnone. reflexivity.
  - intros r c Hr Hc Hclosed Hmin. rewrite Hfirst.
    apply closed_keys_first; assumption.
  - intros hw2 Hready2 Hsame.
    rewrite Hfirst, (scanKeypad_first_key kp hw2 Hready2).
    rewrite (closed_keys_same kp hw hw2 Hsame). reflexivity.
Qed.

(** [getKeys] reads the configuration members only. *)
Lemma getKeys_rows_config (a b : CustomKeypad) hw c rs maxKeys :
  same_config a b ->
  forall count stores,
    getKeys_rows b hw c rs maxKeys count stores
    = getKeys_rows a hw c rs maxKeys count stores.
Proof.
  intros (Hr & _ & _ & _ & Hk).
  induction rs as [|r rs IH]; intros count stores; [reflexivity|].
  cbn [getKeys_rows]. unfold row_pin, keymap_at. rewrite <- Hr, <- Hk, !IH.
  reflexivity.
Qed.

Lemma getKeys_cols_config (a b : CustomKeypad) cs maxKeys :
  same_config a b ->
  forall hw count stores,
    getKeys_cols b hw cs maxKeys count stores
    = getKeys_cols a hw cs maxKeys count stores.
Proof.
  intros Hcfg. pose proof Hcfg as (_ & Hc & Hn & _ & _).
  induction cs as [|c cs IH]; intros hw count stores; [reflexivity|].
  cbn [getKeys_cols]. unfold col_pin. rewrite <- Hc, <- Hn.
  rewrite (getKeys_rows_config a b _ c _ maxKeys Hcfg).
  destruct (getKeys_rows a _ c (seq 0 (_numRows a)) maxKeys count stores)
    as [count' stores'].
  apply IH.
Qed.

(** C8. What [getKeys] records.  On a keypad wired as configured whose
    column pins are outputs at LOW, [getKeys(keysBuffer, maxKeys)] stores
    the characters of the closed intersections, in sweep order (ascending
    column, then ascending row) and up to [maxKeys] of them, into the
    cells 0, 1, ... of the buffer, and returns how many it stored; it
    writes no member of the object and reads only those set by the
    constructor.  On the 2x2 keypad with the keys at (row 0, col 1) and
    (row 1, col 0) closed, [getKeys(buf, 4)] returns 2 with [buf[0] = '3']
    and [buf[1] = '2']. *)
Theorem getKeys_records_closed (maxKeys : nat) (w : World) :
  ready (obj w) (board w) ->
  (maxKeys <= 255)%nat ->
  let count := fst (fst (getKeys maxKeys w)) in
  let stores := snd (fst (getKeys maxKeys w)) in
  let w' := snd (getKeys maxKeys w) in
  let found := firstn maxKeys (closed_keys (obj w) (board w)) in
  count = length found
  /\ stores = numbered 0 found
  /\ (forall keysBuffer,
        (maxKeys <= length keysBuffer)%nat ->
        buffer_after keysBuffer stores = Some (found ++ skipn count keysBuffer))
  /\ obj w' = obj w
  /\ calls w' = calls w
  /\ (forall w2,
        same_config (obj w) (obj w2) -> board w2 = board w ->
        fst (getKeys maxKeys w2) = fst (getKeys maxKeys w))
  /\ (let S4 := getKeys 4 (with_board (set_switches Scenario.two_keys)
                                      Scenario.setup) in
      fst (fst S4) = 2%nat
      /\ forall a b c d,
           buffer_after [a; b; c; d] (snd (fst S4))
           = Some ["3"%char; "2"%char; c; d]).
Proof.
  intros Hready Hmax count stores w' found.
  assert (Hrec : recorded maxKeys (closed_keys (obj w) (board w)) count stores).
  { unfold count, stores. rewrite getKeys_eq. cbn [fst snd].
    apply (getKeys_cols_keys (obj w) maxKeys (seq 0 (_numCols (obj w))) Hmax
             (board w) [] 0%nat []).
    - exact Hready.
    - intros c Hc. apply in_seq in Hc. lia.
    - unfold recorded. rewrite firstn_nil. split; reflexivity. }
  destruct Hrec as [Hcount Hstores]. fold found in Hcount, Hstores.
  split; [exact Hcount|]. split; [exact Hstores|]. split.
  { intros buf Hbuf. unfold buffer_after. rewrite Hstores, Hcount.
    apply (buffer_after_numbered found [] buf).
    unfold found. rewrite length_firstn. lia. }
  split; [unfold w'; rewrite getKeys_eq; reflexivity|].
  split; [unfold w'; rewrite getKeys_eq; reflexivity|].
  split.
  { intros w2 Hcfg Hboard. rewrite !getKeys_eq. cbn [fst].
    destruct Hcfg as (H1 & H2 & H3 & H4 & H5).
    rewrite Hboard, <- H4.
    rewrite (getKeys_cols_config (obj w) (obj w2)); [reflexivity|].
    unfold same_config. auto. }
  split; [vm_compute; reflexivity|].
  intros a b c d. vm_compute. reflexivity.
Qed.

(** C1, as the code has it.  From a state in which [K] is the accepted key
    and [t0] the time it was accepted (['1'] at t=100 in the scenario), a
    poll at most [_debounceTime] later (t=120) whose sweep finds another
    character (no key, or another key) returns the character the sweep
    found, not [K]; the listener is not called and [_keyState],
    [_lastChange], [_pressStart] and [_holding] keep their values.  Every
    later poll returns the character its own sweep finds. *)
Theorem suppressed_poll_returns_scan (K : ascii) (t0 now : Z) (w : World) :
  _lastKey (obj w) = K ->
  _lastChange (obj w) = t0 ->
  scanned w <> K ->
  usub now t0 <= _debounceTime (obj w) ->
  let w' := snd (getKey now w) in
  fst (getKey now w) = scanned w
  /\ fst (getKey now w) <> K
  /\ calls w' = calls w
  /\ _keyState (obj w') = _keyState (obj w)
  /\ _lastChange (obj w') = t0
  /\ _pressStart (obj w') = _pressStart (obj w)
  /\ _holding (obj w') = _holding (obj w)
  /\ forall later env,
       fst (getKey later (with_board env w')) = scanned (with_board env w').
Proof.
  intros HK Ht0 Hscan Hnow w'.
  assert (Hb : getKey_branches (obj w) (calls w) (scanned w) now
               = (obj w, calls w)).
  { apply branches_suppress; [congruence | rewrite Ht0; exact Hnow]. }
  assert (Hret : fst (getKey now w) = scanned w)
    by (rewrite getKey_eq; reflexivity).
  split; [exact Hret|]. split; [rewrite Hret; exact Hscan|].
  unfold w'. rewrite getKey_eq. cbn [snd obj calls]. rewrite Hb. cbn [fst snd].
  repeat (split; [first [reflexivity | exact Ht0]|]).
  intros later env. rewrite getKey_eq. reflexivity.
Qed.

(** C1, as stated, fails on the scenarios.  In S2 the press of ['1'] is
    accepted at t=100, the sweep at t=120 finds no key, and [getKey]
    returns 0, not ['1']; at t=180 the state is still PRESSED and the
    listener has only been called for the press.  In S5 the poll at t=30
    returns ['3'], and at t=100 the listener has not been called and
    [_pressStart] is still 0. *)
Lemma bounce_scenarios_counterexample :
  let w120 := run (Scenario.S1 ++ [KeysChange Scenario.no_key]) Scenario.setup in
  let w30 := run [KeysChange (Scenario.one_key 0 0); CallGetKey 0;
                  KeysChange (Scenario.one_key 1 0)] Scenario.setup in
  (_lastKey (obj w120) = "1"%char /\ _keyState (obj w120) = KEY_PRESSED
   /\ _lastChange (obj w120) = 100 /\ _debounceTime (obj w120) = 50)
  /\ scanned w120 = NO_KEY
  /\ fst (getKey 120 w120) <> "1"%char
  /\ _keyState (obj (run Scenario.S2_release Scenario.setup)) <> KEY_RELEASED
  /\ calls (run Scenario.S2_release Scenario.setup)
     = [mkDispatch "1"%char KEY_PRESSED]
  /\ fst (getKey 30 w30) <> "1"%char
  /\ calls (run Scenario.S5_settled Scenario.setup) = []
  /\ _pressStart (obj (run Scenario.S5_settled Scenario.setup)) <> 100.
Proof.
  intros w120 w30.
  repeat split; try (vm_compute; reflexivity); vm_compute; discriminate.
Qed.

(** C3, on the code.  A key that is already down at a poll 10 ms after
    reset is never reported pressed: the state stays RELEASED while
    [_lastKey] is ['1'].  And after the bounced sample of S2 the state
    stays PRESSED while [_lastKey] is 0, however long the key stays up. *)
Theorem state_key_incoherent :
  let early := run Scenario.early_press Scenario.setup in
  let stuck := run (Scenario.S2_release ++ [CallGetKey 5000]) Scenario.setup in
  reachable Scenario.keymap2x2 Scenario.rowPins Scenario.colPins 2 2
            Scenario.board0 early
  /\ _keyState (obj early) = KEY_RELEASED
  /\ _lastKey (obj early) = "1"%char
  /\ reachable Scenario.keymap2x2 Scenario.rowPins Scenario.colPins 2 2
               Scenario.board0 stuck
  /\ _keyState (obj stuck) = KEY_PRESSED
  /\ _lastKey (obj stuck) = NO_KEY.
Proof.
  intros early stuck.
  assert (Hsetup : reachable Scenario.keymap2x2 Scenario.rowPins
                     Scenario.colPins 2 2 Scenario.board0 Scenario.setup).
  { unfold Scenario.setup. apply reachable_run. apply reachable_start. }
  split; [apply reachable_run; exact Hsetup|].
  split; [vm_compute; reflexivity|]. split; [vm_compute; reflexivity|].
  split; [apply reachable_run; exact Hsetup|].
  split; vm_compute; reflexivity.
Qed.

(** C4, on the code.  With a hold time of 30 ms, below the debounce
    time, a key accepted at t=100 is reported held at t=130; when it is
    found up at t=140 the change is suppressed but [_lastKey] becomes 0,
    and from then on the latch stays set, in state HOLD, with no key. *)
Theorem holding_without_key :
  let w := run Scenario.short_hold Scenario.setup in
  reachable Scenario.keymap2x2 Scenario.rowPins Scenario.colPins 2 2
            Scenario.board0 w
  /\ _holding (obj w) = true
  /\ _keyState (obj w) = KEY_HOLD
  /\ _lastKey (obj w) = NO_KEY.
Proof.
  intros w.
  split.
  - apply reachable_run. unfold Scenario.setup.
    apply reachable_run. apply reachable_start.
  - repeat split; vm_compute; reflexivity.
Qed.

(** ** The theorems on the 2x2 keypad *)

(** After [setup()] the 2x2 keypad is ready, whatever keys are down. *)
Lemma scenario_ready (sw : nat -> nat -> bool) :
  ready (obj Scenario.setup) (set_switches sw (board Scenario.setup)).
Proof.
  split; [|split].
  - repeat split; try reflexivity.
    + repeat constructor; cbn; intuition discriminate.
    + repeat constructor; cbn; intuition discriminate.
  - intros c Hc. vm_compute in Hc.
    destruct c as [|[|c]]; [reflexivity | reflexivity | lia].
  - intros c Hc. vm_compute in Hc.
    destruct c as [|[|c]]; [reflexivity | reflexivity | lia].
Defined.

Lemma scenario_cols_low (sw : nat -> nat -> bool) :
  cols_low (obj Scenario.setup) (set_switches sw (board Scenario.setup)).
Proof. exact (proj1 (proj2 (scenario_ready sw))). Defined.

(** S2 at t=120: the press of ['1'] was accepted at t=100, no key is
    down. *)
Lemma suppressed_poll_returns_scan_witness :
  let w := run (Scenario.S1 ++ [KeysChange Scenario.no_key]) Scenario.setup in
  let w' := snd (getKey 120 w) in
  fst (getKey 120 w) = scanned w
  /\ fst (getKey 120 w) <> "1"%char
  /\ calls w' = calls w
  /\ _keyState (obj w') = _keyState (obj w)
  /\ _lastChange (obj w') = 100
  /\ _pressStart (obj w') = _pressStart (obj w)
  /\ _holding (obj w') = _holding (obj w)
  /\ forall later env,
       fst (getKey later (with_board env w')) = scanned (with_board env w').
Proof.
  intros w w'.
  apply (suppressed_poll_returns_scan "1"%char 100 120 w); evaluate.
Defined.

(** S3 with the press accepted at t=100: key (1,1) stays down and is
    polled at t=500, t=1100 and t=1500. *)
Lemma hold_entered_once_witness :
  let w := run [KeysChange (Scenario.one_key 1 1); CallGetKey 100]
               Scenario.setup in
  let w1 := polls [(fun hw => hw, 500)] w in
  let w2 := poll (fun hw => hw) 1100 w1 in
  let w3 := polls [(fun hw => hw, 1500)] w2 in
  obj w1 = obj w /\ calls w1 = calls w
  /\ _keyState (obj w2) = KEY_HOLD /\ _holding (obj w2) = true
  /\ calls w2 = (if _eventListener (obj w)
                 then calls w ++ [mkDispatch "4"%char KEY_HOLD]
                 else calls w)
  /\ obj w3 = obj w2 /\ calls w3 = calls w2
  /\ polls ([(fun hw => hw, 500)] ++ (fun hw => hw, 1100)
              :: [(fun hw => hw, 1500)]) w = w3
  /\ forall ticks w0,
       no_accept ticks w0 ->
       exists extra,
         calls (polls ticks w0) = calls w0 ++ extra
         /\ (length extra <= 1)%nat
         /\ Forall (fun d => seen d = KEY_HOLD) extra.
Proof.
  intros w.
  apply (hold_entered_once "4"%char w [(fun hw => hw, 500)]
           [(fun hw => hw, 1500)] (fun hw => hw) 1100).
  - discriminate.
  - evaluate.
  - evaluate.
  - cbn [sustained app fst snd]. repeat split; evaluate.
  - constructor; [evaluate | constructor].
  - evaluate.
Defined.

Lemma cols_low_after_scan_witness :
  let w := with_board (set_switches Scenario.two_keys) Scenario.setup in
  cols_low (obj w) (snd (scanKeypad (obj w) (board w)))
  /\ cols_low (obj (snd (getKey 100 w))) (board (snd (getKey 100 w)))
  /\ cols_low (obj (snd (getKeys 4 w))) (board (snd (getKeys 4 w))).
Proof.
  intros w.
  exact (cols_low_after_scan 100 4 w (scenario_cols_low Scenario.two_keys)).
Defined.

Lemma scan_selects_first_closed_witness :
  let kp := obj Scenario.setup in
  let hw := set_switches Scenario.two_keys (board Scenario.setup) in
  fst (scanKeypad kp hw) = hd NO_KEY (closed_keys kp hw)
  /\ fst (scanKeypad kp hw) = "3"%char.
Proof.
  intros kp hw.
  destruct (scan_selects_first_closed kp hw (scenario_ready Scenario.two_keys))
    as (Hfirst & _ & Hmin & _).
  split; [exact Hfirst|].
  apply (Hmin 1%nat 0%nat); try evaluate.
  intros r' c' Hr' Hc' Hclosed. unfold sweep_le.
  destruct c' as [|c']; [|lia].
  destruct r' as [|r']; [vm_compute in Hclosed; discriminate | lia].
Defined.

Lemma getKeys_records_closed_witness :
  let w := with_board (set_switches Scenario.two_keys) Scenario.setup in
  fst (fst (getKeys 1 w)) = length (firstn 1 (closed_keys (obj w) (board w)))
  /\ snd (fst (getKeys 1 w))
     = numbered 0 (firstn 1 (closed_keys (obj w) (board w))).
Proof.
  intros w.
  destruct (getKeys_records_closed 1 w (scenario_ready Scenario.two_keys))
    as (Hcount & Hstores & _); [lia|].
  split; [exact Hcount | exact Hstores].
Defined.

Lemma bounced_key_pressed_twice_witness :
  let w := Scenario.setup in
  let w0 := poll (set_switches (Scenario.one_key 0 0)) 100 w in
  let w1 := poll (set_switches Scenario.no_key) 120 w0 in
  let w2 := poll (set_switches (Scenario.one_key 0 0)) 160 w1 in
  calls w1 = calls w0
  /\ _keyState (obj w2) = KEY_PRESSED
  /\ _pressStart (obj w2) = 160
  /\ calls w2 = [mkDispatch "1"%char KEY_PRESSED; mkDispatch "1"%char KEY_PRESSED].
Proof.
  intros w w0 w1 w2.
  destruct (bounced_key_pressed_twice "1"%char w
              (set_switches (Scenario.one_key 0 0))
              (set_switches Scenario.no_key)
              (set_switches (Scenario.one_key 0 0)) 100 120 160)
    as (_ & Hc1 & _ & _ & Hs2 & Hp2 & _ & _ & Hc2); try evaluate.
  repeat split; assumption.
Defined.

Lemma getKeys_within_bounds_witness :
  let w := with_board (set_switches Scenario.two_keys) Scenario.setup in
  Forall (fun s => (index s < 1)%nat) (snd (fst (getKeys 1 w)))
  /\ (fst (fst (getKeys 1 w)) <= 1)%nat.
Proof.
  intros w.
  destruct (getKeys_within_bounds 1 w) as (Hidx & Hle & _); [lia|].
  split; [exact Hidx | exact Hle].
Defined.


(** * Further properties of the driver *)

(** ** [begin] *)

Lemma begin_cols_effect (kp : CustomKeypad) (n : nat) (hw : Hardware) (q : pin) :
  let h := fold_left (fun h c => digitalWrite (col_pin kp c) LOW
                                   (pinMode (col_pin kp c) OUTPUT h))
                     (seq 0 n) hw in
  levels h q = (if existsb (fun c => N.eqb q (col_pin kp c)) (seq 0 n)
                then LOW else levels hw q)
  /\ modes h q = (if existsb (fun c => N.eqb q (col_pin kp c)) (seq 0 n)
                  then OUTPUT else modes hw q)
  /\ row_lines h = row_lines hw /\ col_lines h = col_lines hw
  /\ switches h = switches hw.
Proof.
  induction n as [|n IH]; cbn zeta.
  - repeat split.
  - rewrite seq_S, fold_left_app, existsb_app. cbn.
    destruct IH as (Hl & Hm & Hr & Hc & Hs). rewrite orb_false_r.
    destruct (N.eqb q (col_pin kp n)).
    + rewrite !orb_true_r. repeat split; assumption.
    + rewrite !orb_false_r. repeat split; assumption.
Qed.

Lemma begin_rows_effect (kp : CustomKeypad) (n : nat) (hw : Hardware) (q : pin) :
  let h := fold_left (fun h r => pinMode (row_pin kp r) INPUT h) (seq 0 n) hw in
  levels h q = levels hw q
  /\ modes h q = (if existsb (fun r => N.eqb q (row_pin kp r)) (seq 0 n)
                  then INPUT else modes hw q)
  /\ row_lines h = row_lines hw /\ col_lines h = col_lines hw
  /\ switches h = switches hw.
Proof.
  induction n as [|n IH]; cbn zeta.
  - repeat split.
  - rewrite seq_S, fold_left_app, existsb_app. cbn.
    destruct IH as (Hl & Hm & Hr & Hc & Hs). rewrite orb_false_r.
    destruct (N.eqb q (row_pin kp n)).
    + rewrite !orb_true_r. repeat split; assumption.
    + rewrite !orb_false_r. repeat split; assumption.
Qed.

(** [begin], pin by pin. *)
Lemma begin_pinwise (kp : CustomKeypad) (hw : Hardware) (q : pin) :
  levels (begin kp hw) q = (if is_col kp q then LOW else levels hw q)
  /\ modes (begin kp hw) q =
     (if is_row kp q then INPUT
      else if is_col kp q then OUTPUT else modes hw q)
  /\ row_lines (begin kp hw) = row_lines hw
  /\ col_lines (begin kp hw) = col_lines hw
  /\ switches (begin kp hw) = switches hw.
Proof.
  unfold begin, begin_rows, begin_cols, is_col, is_row.
  destruct (begin_cols_effect kp (_numCols kp) hw q) as (Hl & Hm & Hr & Hc & Hs).
  destruct (begin_rows_effect kp (_numRows kp)
              (fold_left (fun h c => digitalWrite (col_pin kp c) LOW
                                       (pinMode (col_pin kp c) OUTPUT h))
                         (seq 0 (_numCols kp)) hw) q)
    as (Hl' & Hm' & Hr' & Hc' & Hs').
  cbn zeta in *.
  rewrite Hl', Hm', Hr', Hc', Hs', Hl, Hm, Hr, Hc, Hs.
  repeat split.
Qed.

Lemma is_col_col_pin (kp : CustomKeypad) (c : nat) :
  (c < _numCols kp)%nat -> is_col kp (col_pin kp c) = true.
Proof.
  intros Hc. unfold is_col. apply existsb_exists.
  exists c. split; [apply in_seq; lia | apply N.eqb_refl].
Qed.

Lemma is_row_row_pin (kp : CustomKeypad) (r : nat) :
  (r < _numRows kp)%nat -> is_row kp (row_pin kp r) = true.
Proof.
  intros Hr. unfold is_row. apply existsb_exists.
  exists r. split; [apply in_seq; lia | apply N.eqb_refl].
Qed.

(** X1. What [begin] does to the board: every configured column pin is
    driven LOW, every configured row pin is made an input, a column pin
    that is not also a row pin is made an output, and no other pin, nor
    the matrix, is touched. *)
Theorem begin_effect (kp : CustomKeypad) (hw : Hardware) :
  cols_low kp (begin kp hw)
  /\ (forall r, (r < _numRows kp)%nat -> modes (begin kp hw) (row_pin kp r) = INPUT)
  /\ (forall c, (c < _numCols kp)%nat ->
                is_row kp (col_pin kp c) = false ->
                modes (begin kp hw) (col_pin kp c) = OUTPUT)
  /\ (forall q, is_col kp q = false ->
                levels (begin kp hw) q = levels hw q)
  /\ (forall q, is_col kp q = false -> is_row kp q = false ->
                modes (begin kp hw) q = modes hw q)
  /\ row_lines (begin kp hw) = row_lines hw
  /\ col_lines (begin kp hw) = col_lines hw
  /\ switches (begin kp hw) = switches hw.
Proof.
  split; [|split; [|split; [|split; [|split]]]].
  - intros c Hc.
    destruct (begin_pinwise kp hw (col_pin kp c)) as (Hl & _).
    rewrite Hl, is_col_col_pin by exact Hc. reflexivity.
  - intros r Hr.
    destruct (begin_pinwise kp hw (row_pin kp r)) as (_ & Hm & _).
    rewrite Hm, is_row_row_pin by exact Hr. reflexivity.
  - intros c Hc Hnot.
    destruct (begin_pinwise kp hw (col_pin kp c)) as (_ & Hm & _).
    rewrite Hm, Hnot, is_col_col_pin by exact Hc. reflexivity.
  - intros q Hq.
    destruct (begin_pinwise kp hw q) as (Hl & _).
    rewrite Hl, Hq. reflexivity.
  - intros q Hc Hr.
    destruct (begin_pinwise kp hw q) as (_ & Hm & _).
    rewrite Hm, Hc, Hr. reflexivity.
  - apply (begin_pinwise kp hw 0%N).
Qed.

(** X2. [begin] is idempotent: a second call leaves the direction and
    the level of every pin, and the matrix, as the first call left
    them. *)
Theorem begin_idempotent (kp : CustomKeypad) (hw : Hardware) :
  same_board (begin kp (begin kp hw)) (begin kp hw).
Proof.
  unfold same_board.
  split; [|split; [|split; [|split]]].
  - intros q.
    destruct (begin_pinwise kp (begin kp hw) q) as (_ & Hm2 & _).
    destruct (begin_pinwise kp hw q) as (_ & Hm1 & _).
    rewrite Hm2, Hm1.
    destruct (is_row kp q); [reflexivity|].
    destruct (is_col kp q); reflexivity.
  - intros q.
    destruct (begin_pinwise kp (begin kp hw) q) as (Hl2 & _).
    destruct (begin_pinwise kp hw q) as (Hl1 & _).
    rewrite Hl2, Hl1. destruct (is_col kp q); reflexivity.
  - apply (begin_pinwise kp (begin kp hw) 0%N).
  - apply (begin_pinwise kp (begin kp hw) 0%N).
  - apply (begin_pinwise kp (begin kp hw) 0%N).
Qed.

(** ** The board around a sweep *)

Lemma columns_lowered_refl kp hw : columns_lowered kp hw hw.
Proof. repeat split. intros q. left. reflexivity. Qed.

Lemma columns_lowered_trans kp a b c :
  columns_lowered kp a b -> columns_lowered kp b c -> columns_lowered kp a c.
Proof.
  intros (Hm & Hr & Hc & Hs & Hl) (Hm' & Hr' & Hc' & Hs' & Hl').
  repeat split; try congruence.
  intros q. destruct (Hl' q) as [E|[Hq E]]; [|right; split; assumption].
  rewrite E. apply Hl.
Qed.

(** Energising a configured column and restoring it. *)
Lemma pulse_columns_lowered kp hw c :
  (c < _numCols kp)%nat ->
  columns_lowered kp hw
    (digitalWrite (col_pin kp c) LOW
       (delayMicroseconds 10 (digitalWrite (col_pin kp c) HIGH hw))).
Proof.
  intros Hc. repeat split. intros q. cbn.
  destruct (N.eqb_spec q (col_pin kp c)) as [->|_].
  - right. split; [apply is_col_col_pin; exact Hc | reflexivity].
  - left. reflexivity.
Qed.

Lemma scan_cols_columns_lowered kp cs :
  (forall c, In c cs -> (c < _numCols kp)%nat) ->
  forall hw, columns_lowered kp hw (snd (scan_cols kp hw cs)).
Proof.
  induction cs as [|c cs IH]; intros Hcs hw; cbn [scan_cols].
  - apply columns_lowered_refl.
  - assert (Hc : (c < _numCols kp)%nat) by (apply Hcs; left; reflexivity).
    destruct (scan_rows kp _ c (seq 0 (_numRows kp))) as [k|]; cbn [snd].
    + apply pulse_columns_lowered. exact Hc.
    + eapply columns_lowered_trans; [apply pulse_columns_lowered; exact Hc|].
      apply IH. intros c' Hc'. apply Hcs. right. exact Hc'.
Qed.

Lemma getKeys_cols_columns_lowered kp maxKeys cs :
  (forall c, In c cs -> (c < _numCols kp)%nat) ->
  forall hw count stores,
    columns_lowered kp hw (snd (getKeys_cols kp hw cs maxKeys count stores)).
Proof.
  induction cs as [|c cs IH]; intros Hcs hw count stores; cbn [getKeys_cols].
  - apply columns_lowered_refl.
  - assert (Hc : (c < _numCols kp)%nat) by (apply Hcs; left; reflexivity).
    destruct (getKeys_rows kp _ c (seq 0 (_numRows kp)) maxKeys count stores)
      as [count' stores'].
    eapply columns_lowered_trans; [apply pulse_columns_lowered; exact Hc|].
    apply IH. intros c' Hc'. apply Hcs. right. exact Hc'.
Qed.

Lemma in_seq_lt (n c : nat) : In c (seq 0 n) -> (c < n)%nat.
Proof. intros H. apply in_seq in H. lia. Qed.

Lemma is_col_low kp hw q :
  cols_low kp hw -> is_col kp q = true -> levels hw q = LOW.
Proof.
  intros Hlow Hq. unfold is_col in Hq. apply existsb_exists in Hq.
  destruct Hq as (c & Hin & E). apply N.eqb_eq in E. subst q.
  apply Hlow. apply in_seq_lt. exact Hin.
Qed.

Lemma columns_lowered_same_board kp a b :
  cols_low kp a -> columns_lowered kp a b -> same_board b a.
Proof.
  intros Hlow (Hm & Hr & Hc & Hs & Hl).
  split; [intros q; rewrite Hm; reflexivity|].
  split; [|auto].
  intros q. destruct (Hl q) as [E|[Hq E]]; [exact E|].
  rewrite E. symmetry. apply (is_col_low kp a q Hlow Hq).
Qed.

(** X3. A sweep touches the column pins only.  After [scanKeypad],
    [getKey] or [getKeys], whatever the board: the pin directions and the
    matrix are as before, and every pin is at the level it had, or is a
    configured column pin now at LOW.  So when the column pins were at LOW
    on entry, the board is left exactly as it was found. *)
Theorem sweep_touches_columns_only (now : Z) (maxKeys : nat) (w : World) :
  let touched := columns_lowered (obj w) (board w) in
  touched (snd (scanKeypad (obj w) (board w)))
  /\ touched (board (snd (getKey now w)))
  /\ touched (board (snd (getKeys maxKeys w)))
  /\ (cols_low (obj w) (board w) ->
      same_board (snd (scanKeypad (obj w) (board w))) (board w)
      /\ same_board (board (snd (getKey now w))) (board w)
      /\ same_board (board (snd (getKeys maxKeys w))) (board w)).
Proof.
  intros touched. unfold touched.
  assert (Hscan : columns_lowered (obj w) (board w)
                    (snd (scanKeypad (obj w) (board w)))).
  { unfold scanKeypad. apply scan_cols_columns_lowered.
    intros c. apply in_seq_lt. }
  assert (Hkey : columns_lowered (obj w) (board w) (board (snd (getKey now w)))).
  { rewrite getKey_eq. cbn [snd board]. exact Hscan. }
  assert (Hkeys : columns_lowered (obj w) (board w)
                    (board (snd (getKeys maxKeys w)))).
  { rewrite getKeys_eq. cbn [snd board]. apply getKeys_cols_columns_lowered.
    intros c. apply in_seq_lt. }
  split; [exact Hscan|]. split; [exact Hkey|]. split; [exact Hkeys|].
  intros Hlow.
  split; [|split]; apply (columns_lowered_same_board (obj w)); assumption.
Qed.

(** ** Sweeps one after the other *)

Lemma ready_config (a b : CustomKeypad) (hw : Hardware) :
  same_config a b -> ready a hw -> ready b hw.
Proof.
  intros Hcfg ((Hrl & Hcl & Hlr & Hlc & Hnr & Hnc) & Hlow & Hout).
  pose proof Hcfg as (Hr & Hc & Hnrows & Hncols & _).
  split; [|split].
  - unfold wired. rewrite <- Hr, <- Hc, <- Hnrows, <- Hncols.
    repeat split; assumption.
  - apply (cols_low_config a b hw Hcfg Hlow).
  - intros c Hlt. unfold col_pin. rewrite <- Hc. apply Hout.
    rewrite Hncols. exact Hlt.
Qed.

Lemma closed_keys_config (a b : CustomKeypad) (hw : Hardware) :
  same_config a b -> closed_keys b hw = closed_keys a hw.
Proof.
  intros (_ & _ & Hnr & Hnc & Hk).
  unfold closed_keys, rows_keys, keymap_at. rewrite Hnr, Hnc, Hk. reflexivity.
Qed.

Lemma ready_columns_lowered kp hw hw' :
  ready kp hw -> columns_lowered kp hw hw' ->
  ready kp hw' /\ closed_keys kp hw' = closed_keys kp hw.
Proof.
  intros Hready Hlowered.
  pose proof Hready as ((Hrl & Hcl & Hlr & Hlc & Hnr & Hnc) & Hlow & Hout).
  pose proof Hlowered as (Hm & Hr & Hc & Hs & Hl).
  split.
  - split; [|split].
    + unfold wired. rewrite Hr, Hc. repeat split; assumption.
    + intros c Hlt. destruct (Hl (col_pin kp c)) as [E|[_ E]]; [|exact E].
      rewrite E. apply Hlow. exact Hlt.
    + intros c Hlt. rewrite Hm. apply Hout. exact Hlt.
  - unfold closed_keys, rows_keys. rewrite Hs. reflexivity.
Qed.

(** On a ready keypad [getKeys] stores and counts the first [maxKeys]
    closed keys. *)
Lemma getKeys_found (maxKeys : nat) (w : World) :
  ready (obj w) (board w) -> (maxKeys <= 255)%nat ->
  fst (getKeys maxKeys w)
  = (length (firstn maxKeys (closed_keys (obj w) (board w))),
     numbered 0 (firstn maxKeys (closed_keys (obj w) (board w)))).
Proof.
  intros Hready Hmax. rewrite getKeys_eq. cbn [fst].
  pose proof (getKeys_cols_keys (obj w) maxKeys (seq 0 (_numCols (obj w))) Hmax
                (board w) [] 0%nat [] Hready
                (fun c Hc => in_seq_lt _ c Hc)) as Hrec.
  destruct (fst (getKeys_cols (obj w) (board w) (seq 0 (_numCols (obj w)))
                              maxKeys 0%nat [])) as [count stores].
  cbn [fst snd app] in Hrec.
  destruct Hrec as [Hcount Hstores].
  - unfold recorded. rewrite firstn_nil. split; reflexivity.
  - rewrite Hcount, Hstores. reflexivity.
Qed.

Lemma ready_after_sweep (w : World) (kp' : CustomKeypad) (hw' : Hardware) :
  ready (obj w) (board w) ->
  same_config (obj w) kp' ->
  columns_lowered (obj w) (board w) hw' ->
  ready kp' hw'
  /\ closed_keys kp' hw' = closed_keys (obj w) (board w).
Proof.
  intros Hready Hcfg Hlowered.
  destruct (ready_columns_lowered _ _ _ Hready Hlowered) as [Hready' Hkeys].
  split; [apply (ready_config (obj w)); assumption|].
  rewrite (closed_keys_config (obj w) kp' hw' Hcfg). exact Hkeys.
Qed.

(** X4. Sweeps do not disturb each other.  On a keypad wired as
    configured with its columns outputs at LOW, a [getKey] or a [getKeys]
    leaves the keypad in that condition, and while no key moves the next
    [getKey] returns the same character and the next [getKeys] the same
    count and stores, whichever of the two ran before. *)
Theorem sweeps_do_not_interfere (t1 t2 : Z) (maxKeys : nat) (w : World) :
  ready (obj w) (board w) ->
  (maxKeys <= 255)%nat ->
  let w1 := snd (getKey t1 w) in
  let w2 := snd (getKeys maxKeys w) in
  ready (obj w1) (board w1)
  /\ ready (obj w2) (board w2)
  /\ fst (getKey t2 w1) = fst (getKey t1 w)
  /\ fst (getKey t2 w2) = fst (getKey t1 w)
  /\ fst (getKeys maxKeys w1) = fst (getKeys maxKeys w)
  /\ fst (getKeys maxKeys w2) = fst (getKeys maxKeys w).
Proof.
  intros Hready Hmax w1 w2.
  assert (H1 : ready (obj w1) (board w1)
               /\ closed_keys (obj w1) (board w1)
                  = closed_keys (obj w) (board w)).
  { apply (ready_after_sweep w (obj w1) (board w1)); [exact Hready| |].
    - apply (getKey_keeps_settings t1 w).
    - unfold w1. rewrite getKey_eq. cbn [snd board]. unfold scanKeypad.
      apply scan_cols_columns_lowered. intros c. apply in_seq_lt. }
  assert (H2 : ready (obj w2) (board w2)
               /\ closed_keys (obj w2) (board w2)
                  = closed_keys (obj w) (board w)).
  { apply (ready_after_sweep w (obj w2) (board w2)); [exact Hready| |].
    - unfold w2. rewrite getKeys_eq. cbn [snd obj]. unfold same_config. auto.
    - unfold w2. rewrite getKeys_eq. cbn [snd board].
      apply getKeys_cols_columns_lowered. intros c. apply in_seq_lt. }
  destruct H1 as [Hr1 Hk1]. destruct H2 as [Hr2 Hk2].
  assert (Hkey : fst (getKey t1 w) = hd NO_KEY (closed_keys (obj w) (board w))).
  { rewrite getKey_eq. cbn [fst]. apply scanKeypad_first_key. exact Hready. }
  split; [exact Hr1|]. split; [exact Hr2|].
  split.
  { rewrite getKey_eq. cbn [fst]. unfold scanned.
    rewrite (scanKeypad_first_key _ _ Hr1), Hk1, Hkey. reflexivity. }
  split.
  { rewrite getKey_eq. cbn [fst]. unfold scanned.
    rewrite (scanKeypad_first_key _ _ Hr2), Hk2, Hkey. reflexivity. }
  split.
  - rewrite (getKeys_found maxKeys w1 Hr1 Hmax), Hk1.
    rewrite (getKeys_found maxKeys w Hready Hmax). reflexivity.
  - rewrite (getKeys_found maxKeys w2 Hr2 Hmax), Hk2.
    rewrite (getKeys_found maxKeys w Hready Hmax). reflexivity.
Qed.

Lemma numbered_values i ks : map value (numbered i ks) = ks.
Proof.
  revert i. induction ks as [|k ks IH]; intros i; cbn; [reflexivity|].
  rewrite IH. reflexivity.
Qed.

Lemma firstn_numbered n ks :
  forall i, firstn n (numbered i ks) = numbered i (firstn n ks).
Proof.
  revert n. induction ks as [|k ks IH]; intros n i.
  - rewrite !firstn_nil. reflexivity.
  - destruct n as [|n]; [reflexivity|]. cbn. rewrite IH. reflexivity.
Qed.

(** X5. [getKey] and [getKeys] agree.  On a ready keypad, with room for
    one key at least, the character [getKey] returns is the one [getKeys]
    stores first: [getKey] returns 0 when [getKeys] stores nothing, and a
    nonzero character returned by [getKey] is what [getKeys] stores at
    index 0. *)
Theorem getKey_is_first_of_getKeys (now : Z) (maxKeys : nat) (w : World) :
  ready (obj w) (board w) ->
  (1 <= maxKeys <= 255)%nat ->
  let stores := snd (fst (getKeys maxKeys w)) in
  fst (getKey now w) = hd NO_KEY (map value stores)
  /\ (fst (fst (getKeys maxKeys w)) = 0%nat -> fst (getKey now w) = NO_KEY)
  /\ (fst (getKey now w) <> NO_KEY ->
      (1 <= fst (fst (getKeys maxKeys w)))%nat
      /\ exists rest, stores = mkStore 0 (fst (getKey now w)) :: rest).
Proof.
  intros Hready [Hone Hmax] stores.
  assert (Hkey : fst (getKey now w) = hd NO_KEY (closed_keys (obj w) (board w))).
  { rewrite getKey_eq. cbn [fst]. apply scanKeypad_first_key. exact Hready. }
  pose proof (getKeys_found maxKeys w Hready Hmax) as Hfound.
  assert (Hstores : stores = numbered 0 (firstn maxKeys
                                           (closed_keys (obj w) (board w))))
    by (unfold stores; rewrite Hfound; reflexivity).
  assert (Hcount : fst (fst (getKeys maxKeys w))
                   = length (firstn maxKeys (closed_keys (obj w) (board w))))
    by (rewrite Hfound; reflexivity).
  rewrite Hkey, Hcount, Hstores, numbered_values.
  destruct (closed_keys (obj w) (board w)) as [|k ks].
  - rewrite firstn_nil. cbn. split; [reflexivity|]. split; [reflexivity|].
    intros H. contradiction.
  - destruct maxKeys as [|m]; [lia|]. cbn.
    split; [reflexivity|]. split; [discriminate|].
    intros _. split; [lia | eexists; reflexivity].
Qed.

(** X7. A smaller [maxKeys] gives a prefix.  On a ready keypad the
    stores of [getKeys(buf, m)] are the first [m] stores of
    [getKeys(buf, n)] for every [m <= n], and its count is the smaller of
    [m] and the count for [n]. *)
Theorem getKeys_prefix (m n : nat) (w : World) :
  ready (obj w) (board w) ->
  (m <= n <= 255)%nat ->
  snd (fst (getKeys m w)) = firstn m (snd (fst (getKeys n w)))
  /\ fst (fst (getKeys m w)) = Nat.min m (fst (fst (getKeys n w))).
Proof.
  intros Hready [Hmn Hn].
  rewrite (getKeys_found m w Hready) by lia.
  rewrite (getKeys_found n w Hready) by lia.
  cbn [fst snd]. split.
  - rewrite firstn_numbered, firstn_firstn.
    replace (Nat.min m n) with m by lia. reflexivity.
  - rewrite !length_firstn. lia.
Qed.

(** ** Sweeps with nothing to find or nowhere to store *)

Lemma getKeys_rows_idle kp hw c rs maxKeys count stores :
  rs = [] \/ (maxKeys <= count)%nat ->
  getKeys_rows kp hw c rs maxKeys count stores = (count, stores).
Proof.
  intros [-> | Hfull]; [reflexivity|].
  induction rs as [|r rs IH]; [reflexivity|].
  cbn [getKeys_rows].
  destruct (digitalRead hw (row_pin kp r)); [|exact IH].
  destruct (Nat.ltb_spec count maxKeys); [lia | exact IH].
Qed.

Lemma getKeys_cols_idle kp cs maxKeys count stores :
  _numRows kp = 0%nat \/ (maxKeys <= count)%nat ->
  forall hw, fst (getKeys_cols kp hw cs maxKeys count stores) = (count, stores).
Proof.
  intros Hidle.
  induction cs as [|c cs IH]; intros hw; [reflexivity|].
  cbn [getKeys_cols]. rewrite getKeys_rows_idle.
  - apply IH.
  - destruct Hidle as [H0 | Hfull]; [left; rewrite H0; reflexivity | right; exact Hfull].
Qed.

Lemma scan_cols_no_rows kp cs :
  _numRows kp = 0%nat -> forall hw, fst (scan_cols kp hw cs) = NO_KEY.
Proof.
  intros H0. induction cs as [|c cs IH]; intros hw; [reflexivity|].
  cbn [scan_cols]. rewrite H0. cbn [seq scan_rows]. apply IH.
Qed.

(** X6. Sweeps with nothing to do.  With no row, no column, or
    [maxKeys = 0], [getKeys] makes no store and returns 0, whatever the
    board; with no row or no column [getKey] returns 0. *)
Theorem empty_sweeps (now : Z) (maxKeys : nat) (w : World) :
  _numRows (obj w) = 0%nat \/ _numCols (obj w) = 0%nat \/ maxKeys = 0%nat ->
  fst (getKeys maxKeys w) = (0%nat, [])
  /\ (_numRows (obj w) = 0%nat \/ _numCols (obj w) = 0%nat ->
      fst (getKey now w) = NO_KEY).
Proof.
  intros Hempty. split.
  - rewrite getKeys_eq. cbn [fst].
    destruct Hempty as [H0 | [H0 | H0]].
    + apply getKeys_cols_idle. left. exact H0.
    + rewrite H0. reflexivity.
    + apply getKeys_cols_idle. right. lia.
  - intros [H0 | H0]; rewrite getKey_eq; cbn [fst]; unfold scanned, scanKeypad.
    + apply scan_cols_no_rows. exact H0.
    + rewrite H0. reflexivity.
Qed.

(** ** The rate and the number of events *)

Lemma no_accept_keeps_change ticks :
  forall w,
    no_accept ticks w ->
    _lastChange (obj (polls ticks w)) = _lastChange (obj w)
    /\ _debounceTime (obj (polls ticks w)) = _debounceTime (obj w).
Proof.
  induction ticks as [|[env now] rest IH]; intros w Hq.
  - split; reflexivity.
  - cbn in Hq. destruct Hq as [Hno Hrest].
    cbn [polls fold_left fst snd]. fold (polls rest (poll env now w)).
    destruct (IH _ Hrest) as [Hc Hd]. rewrite Hc, Hd.
    destruct (poll_without_accept env now w Hno) as [[Ho _] | (_ & Ho & _)];
      rewrite Ho; split; reflexivity.
Qed.

(** X8. Accepted changes are spaced.  When a poll at [t0] accepts a change
    and the next poll to accept one is at [t1], then [t1 - t0], on
    [unsigned long], is strictly greater than [_debounceTime]; with a
    clock that has not wrapped in between, [t1 - t0 > _debounceTime]. *)
Theorem accepted_changes_spaced (w : World)
    (env0 env1 : Hardware -> Hardware) (t0 t1 : Z)
    (ticks : list ((Hardware -> Hardware) * Z)) :
  accepts t0 (with_board env0 w) ->
  no_accept ticks (poll env0 t0 w) ->
  accepts t1 (with_board env1 (polls ticks (poll env0 t0 w))) ->
  usub t1 t0 > _debounceTime (obj w)
  /\ (0 <= t0 <= t1 -> t1 < ULONG_MODULUS -> t1 - t0 > _debounceTime (obj w)).
Proof.
  intros [Hk0 Ht0] Hquiet [_ Ht1].
  cbn [obj with_board] in Hk0, Ht0, Ht1.
  destruct (no_accept_keeps_change ticks _ Hquiet) as [Hc Hd].
  rewrite Hc, Hd in Ht1.
  rewrite poll_obj in Ht1.
  rewrite (branches_accept (obj w) (calls w) _ t0 Hk0 Ht0) in Ht1.
  cbn in Ht1.
  split; [exact Ht1|].
  intros Hmono Hrange. rewrite usub_no_wrap in Ht1 by assumption. exact Ht1.
Qed.

(** A poll appends one call to the log, or none. *)
Lemma one_listener_call (now : Z) (w : World) :
  calls (snd (getKey now w)) = calls w
  \/ (_eventListener (obj w) = true
      /\ calls (snd (getKey now w))
         = calls w ++ [mkDispatch (scanned w)
                                  (_keyState (obj (snd (getKey now w))))]).
Proof.
  rewrite getKey_eq. cbn [fst snd obj calls].
  unfold getKey_branches.
  destruct (negb (Ascii.eqb (scanned w) (_lastKey (obj w)))).
  - destruct (usub now (_lastChange (obj w)) >? _debounceTime (obj w));
      [|left; reflexivity].
    cbn [fst snd]. unfold notify. cbn.
    destruct (_eventListener (obj w)); [right; split; reflexivity | left; reflexivity].
  - destruct (nonzero (scanned w) && negb (_holding (obj w))
              && (usub now (_pressStart (obj w)) >=? _holdTime (obj w)));
      [|left; reflexivity].
    cbn [fst snd]. unfold notify. cbn.
    destruct (_eventListener (obj w)); [right; split; reflexivity | left; reflexivity].
Qed.

(** X9. One event per poll at most.  A call of [getKey] either leaves the
    listener alone, or calls it exactly once (a listener being
    registered), with the character that [getKey] returns and in the state
    that [getKeyState] reports after the call. *)
Theorem one_dispatch_per_poll (now : Z) (w : World) :
  let w' := snd (getKey now w) in
  calls w' = calls w
  \/ (_eventListener (obj w) = true
      /\ calls w' = calls w ++ [mkDispatch (fst (getKey now w))
                                           (getKeyState (obj w'))]).
Proof.
  intros w'.
  destruct (one_listener_call now w) as [E | [Hl E]]; [left; exact E|].
  right. split; [exact Hl|].
  replace (fst (getKey now w)) with (scanned w)
    by (rewrite getKey_eq; reflexivity).
  unfold w', getKeyState. exact E.
Qed.

(** X10. No listener, no event.  While no listener is registered, whatever
    the program calls and whatever the keys do, nothing is dispatched. *)
Theorem silent_without_listener (prog : list Action) (w : World) :
  _eventListener (obj w) = false ->
  Forall (fun a => registers a = false) prog ->
  calls (run prog w) = calls w
  /\ _eventListener (obj (run prog w)) = false.
Proof.
  revert w. induction prog as [|a prog IH]; intros w Hnone Hprog.
  - split; [reflexivity | exact Hnone].
  - inversion Hprog as [|? ? Ha Hrest]; subst.
    cbn [run fold_left]. fold (run prog (perform a w)).
    assert (Hstep : calls (perform a w) = calls w
                    /\ _eventListener (obj (perform a w)) = false).
    { destruct a; cbn [perform with_obj with_board obj calls];
        try (split; [reflexivity | exact Hnone]).
      - destruct (getKey_keeps_settings now w) as (_ & _ & _ & Hl).
        split; [|rewrite Hl; exact Hnone].
        destruct (one_listener_call now w) as [E | [Hyes _]]; [exact E|].
        rewrite Hnone in Hyes. discriminate.
      - cbn in Ha. split; [reflexivity | exact Ha]. }
    destruct Hstep as [Hc Hl].
    destruct (IH (perform a w) Hl Hrest) as [Hc' Hl'].
    split; [rewrite Hc', Hc; reflexivity | exact Hl'].
Qed.

(** ** What the queries answer *)

Lemma polls_nothing_keeps_lastKey (prog : list Action) :
  polls_nothing prog ->
  forall w, _lastKey (obj (run prog w)) = _lastKey (obj w).
Proof.
  intros Hprog. induction Hprog as [|a prog Ha _ IH]; intros w.
  - reflexivity.
  - cbn [run fold_left]. fold (run prog (perform a w)). rewrite IH.
    destruct a; try reflexivity. contradiction.
Qed.

(** X11. [isPressed] answers for the last sweep.  After a [getKey], and
    until the next one whatever else is called, [isPressed(k)] is true
    exactly for the character that [getKey] returned; so [isPressed(0)]
    is true exactly when that sweep found no key. *)
Theorem isPressed_last_scan (now : Z) (w : World) (rest : list Action)
    (k : ascii) :
  polls_nothing rest ->
  (isPressed (obj (run rest (snd (getKey now w)))) k = true
   <-> k = fst (getKey now w)).
Proof.
  intros Hrest. unfold isPressed.
  rewrite (polls_nothing_keeps_lastKey rest Hrest).
  rewrite getKey_eq. cbn [fst snd obj set_lastKey _lastKey].
  destruct (Ascii.eqb_spec (scanned w) k); split; congruence.
Qed.

(** X12. A reported hold is reported once, whatever the settings become.
    Once the latch is set, as long as every [getKey] finds the accepted
    key, no call of [setHoldTime], [setDebounceTime], [addEventListener]
    or [begin] and no poll makes the listener hear of it again, and the
    state stays what it was. *)
Theorem latched_hold_is_silent (K : ascii) (prog : list Action) (w : World) :
  _lastKey (obj w) = K ->
  _holding (obj w) = true ->
  steady K prog w ->
  calls (run prog w) = calls w
  /\ _holding (obj (run prog w)) = true
  /\ _keyState (obj (run prog w)) = _keyState (obj w)
  /\ _lastKey (obj (run prog w)) = K.
Proof.
  revert w. induction prog as [|a prog IH]; intros w HK Hh Hs.
  - repeat split; assumption.
  - cbn [steady] in Hs. destruct Hs as [Ha Hrest].
    cbn [run fold_left]. fold (run prog (perform a w)).
    assert (Hstep : calls (perform a w) = calls w
                    /\ _holding (obj (perform a w)) = true
                    /\ _keyState (obj (perform a w)) = _keyState (obj w)
                    /\ _lastKey (obj (perform a w)) = K).
    { destruct a; cbn [perform with_obj with_board obj calls];
        try (repeat split; assumption).
      rewrite getKey_eq. cbn [snd obj calls].
      rewrite branches_idle by (auto; congruence).
      cbn [fst snd]. rewrite Ha, <- HK, set_lastKey_same.
      repeat split; assumption. }
    destruct Hstep as (Hc & Hh' & Hs' & HK').
    destruct (IH (perform a w) HK' Hh' Hrest) as (Hc2 & Hh2 & Hs2 & HK2).
    repeat split; congruence.
Qed.

(** X13. A key already down at reset.  On a freshly constructed keypad
    (defaults: 50 ms, 1000 ms, last change at 0), a key found by a first
    poll at most 50 ms after the clock started is not accepted, and as
    long as it stays down no poll before 1000 ms reports it: the state
    stays RELEASED, the listener is not called, and [isPressed] alone
    answers for the key. *)
Theorem press_at_reset_is_swallowed
    (userKeymap : list (list ascii)) (rowPins colPins : list pin)
    (numRows numCols : nat) (listener : bool) (hw : Hardware) (now : Z)
    (ticks : list ((Hardware -> Hardware) * Z)) :
  let w := {| obj := addEventListener listener
                       (CustomKeypad_new userKeymap rowPins colPins
                                         numRows numCols);
              board := hw;
              calls := [] |} in
  let w' := polls ticks (snd (getKey now w)) in
  0 <= now <= 50 ->
  scanned w <> NO_KEY ->
  sustained (scanned w) ticks (snd (getKey now w)) ->
  Forall (fun tick => 0 <= snd tick < 1000) ticks ->
  fst (getKey now w) = scanned w
  /\ getKeyState (obj w') = KEY_RELEASED
  /\ calls w' = []
  /\ isPressed (obj w') (scanned w) = true.
Proof.
  intros w w' Hnow Hkey Hsus Hticks.
  assert (Hfirst : snd (getKey now w)
                   = {| obj := set_lastKey (scanned w) (obj w);
                        board := snd (scanKeypad (obj w) (board w));
                        calls := [] |}).
  { rewrite getKey_eq. cbn [snd].
    rewrite branches_suppress; [reflexivity | exact Hkey |].
    cbn. unfold usub, ULONG_MODULUS. rewrite Z.mod_small; lia. }
  destruct (polls_before_threshold (scanned w) ticks (snd (getKey now w)))
    as [Ho Hc].
  - rewrite Hfirst. reflexivity.
  - exact Hsus.
  - rewrite Hfirst. cbn.
    eapply Forall_impl; [|exact Hticks].
    intros tick Htick. cbn in Htick.
    unfold usub, ULONG_MODULUS. rewrite Z.sub_0_r, Z.mod_small; lia.
  - fold w' in Ho, Hc. rewrite Hfirst in Ho, Hc. cbn [obj calls] in Ho, Hc.
    split; [rewrite getKey_eq; reflexivity|].
    unfold getKeyState, isPressed. rewrite Ho, Hc. cbn.
    repeat split. apply Ascii.eqb_refl.
Qed.

(** ** [transitionTo] *)

Lemma KeyState_eqb_eq (a b : KeyState) : KeyState_eqb a b = true <-> a = b.
Proof. destruct a, b; cbn; split; congruence. Qed.

(** X14. [transitionTo] sets the state it is given and tells the listener
    at most once: it changes nothing when the keypad is in that state
    already; otherwise the state becomes [newState] and the listener, if
    one is registered and [_lastKey] is not 0, is called once with
    [_lastKey]; a second call with the same state changes nothing more. *)
Theorem transitionTo_effect (newState : KeyState) (w : World) :
  getKeyState (obj (transitionTo newState w)) = newState
  /\ (getKeyState (obj w) = newState -> transitionTo newState w = w)
  /\ transitionTo newState (transitionTo newState w) = transitionTo newState w
  /\ (getKeyState (obj w) <> newState ->
      calls (transitionTo newState w)
      = (if _eventListener (obj w) && nonzero (_lastKey (obj w))
         then calls w ++ [mkDispatch (_lastKey (obj w)) newState]
         else calls w))
  /\ _lastKey (obj (transitionTo newState w)) = _lastKey (obj w)
  /\ _holding (obj (transitionTo newState w)) = _holding (obj w)
  /\ board (transitionTo newState w) = board w.
Proof.
  assert (Hstate : getKeyState (obj (transitionTo newState w)) = newState).
  { unfold transitionTo, getKeyState.
    destruct (KeyState_eqb (_keyState (obj w)) newState) eqn:E.
    - apply KeyState_eqb_eq. exact E.
    - reflexivity. }
  split; [exact Hstate|].
  split.
  { intros Hsame. unfold transitionTo, getKeyState in *.
    rewrite (proj2 (KeyState_eqb_eq _ _) Hsame). reflexivity. }
  split.
  { unfold getKeyState in Hstate.
    unfold transitionTo at 1.
    rewrite (proj2 (KeyState_eqb_eq _ _) Hstate). reflexivity. }
  split.
  { intros Hdiff. unfold transitionTo, getKeyState in *.
    destruct (KeyState_eqb (_keyState (obj w)) newState) eqn:E.
    - apply KeyState_eqb_eq in E. contradiction.
    - cbn [calls]. unfold notify. cbn.
      destruct (_eventListener (obj w)), (nonzero (_lastKey (obj w)));
        reflexivity. }
  unfold transitionTo.
  destruct (KeyState_eqb (_keyState (obj w)) newState); repeat split.
Qed.

(** ** What every reachable state satisfies *)

Lemma same_config_trans (a b c : CustomKeypad) :
  same_config a b -> same_config b c -> same_config a c.
Proof.
  unfold same_config. intros (H1 & H2 & H3 & H4 & H5) (K1 & K2 & K3 & K4 & K5).
  repeat split; congruence.
Qed.

Lemma perform_keeps_config (a : Action) (w : World) :
  same_config (obj w) (obj (perform a w)).
Proof.
  destruct a; cbn [perform with_obj with_board obj];
    [ | apply (getKey_keeps_settings now w) | | | | ];
    unfold same_config; cbn; repeat split.
Qed.

(** A poll appends nothing to the log, or one coherent call. *)
Lemma poll_appends_coherent (now : Z) (w : World) :
  calls (snd (getKey now w)) = calls w
  \/ exists d, calls (snd (getKey now w)) = calls w ++ [d] /\ coherent d.
Proof.
  rewrite getKey_eq. cbn [snd calls]. unfold getKey_branches.
  destruct (negb (Ascii.eqb (scanned w) (_lastKey (obj w)))).
  - destruct (usub now (_lastChange (obj w)) >? _debounceTime (obj w));
      [|left; reflexivity].
    cbn [snd]. unfold notify. cbn.
    destruct (_eventListener (obj w)); [|left; reflexivity].
    right. eexists. split; [reflexivity|].
    unfold coherent. cbn.
    destruct (nonzero (scanned w)) eqn:E.
    + apply nonzero_true in E. split; [discriminate | contradiction].
    + apply nonzero_false in E. split; auto.
  - destruct (nonzero (scanned w)) eqn:E; [|left; reflexivity].
    cbn [andb].
    destruct (negb (_holding (obj w))
              && (usub now (_pressStart (obj w)) >=? _holdTime (obj w)));
      [|left; reflexivity].
    cbn [snd]. unfold notify. cbn.
    destruct (_eventListener (obj w)); [|left; reflexivity].
    right. eexists. split; [reflexivity|].
    unfold coherent. cbn. apply nonzero_true in E.
    split; [discriminate | contradiction].
Qed.

Section Invariants.

Variables (userKeymap : list (list ascii)) (rowPins colPins : list pin).
Variables (numRows numCols : nat) (hw : Hardware).

(** X17. The configuration is never written.  In every state a program
    can reach, the pin arrays, the dimensions and the keymap are those
    given to the constructor. *)
Theorem config_is_constant (w : World) :
  reachable userKeymap rowPins colPins numRows numCols hw w ->
  _rows (obj w) = rowPins /\ _cols (obj w) = colPins
  /\ _numRows (obj w) = numRows /\ _numCols (obj w) = numCols
  /\ _keymap (obj w) = userKeymap.
Proof.
  induction 1 as [|w a Hw IH].
  - repeat split.
  - destruct (perform_keeps_config a w) as (H1 & H2 & H3 & H4 & H5).
    destruct IH as (K1 & K2 & K3 & K4 & K5).
    repeat split; congruence.
Qed.

(** X18. The listener is never told of a key in state RELEASED, nor of no
    key in another state: in every call ever made to it, the argument is
    0 exactly when [getKeyState()], asked from inside the call, answers
    RELEASED. *)
Theorem dispatches_are_coherent (w : World) :
  reachable userKeymap rowPins colPins numRows numCols hw w ->
  Forall coherent (calls w).
Proof.
  induction 1 as [|w a Hw IH].
  - constructor.
  - destruct a; cbn [perform with_obj with_board calls]; try exact IH.
    destruct (poll_appends_coherent now w) as [E | (d & E & Hd)]; rewrite E.
    + exact IH.
    + apply Forall_app. split; [exact IH | constructor; [exact Hd | constructor]].
Qed.

End Invariants.

(** ** The clock wrapping around *)

(** X19. The debounce survives the wrap of [millis()].  When the clock
    has wrapped once since the last accepted change ([now] is below
    [_lastChange]), the interval [getKey] compares with [_debounceTime] is
    still the time really elapsed, [now + 2^32 - _lastChange]: a different
    key is accepted when that time is greater than [_debounceTime] and
    suppressed otherwise. *)
Theorem debounce_across_wrap (now : Z) (w : World) :
  0 <= now < _lastChange (obj w) ->
  _lastChange (obj w) < ULONG_MODULUS ->
  scanned w <> _lastKey (obj w) ->
  let elapsed := now + ULONG_MODULUS - _lastChange (obj w) in
  let w' := snd (getKey now w) in
  usub now (_lastChange (obj w)) = elapsed
  /\ (elapsed > _debounceTime (obj w) ->
      _lastChange (obj w') = now
      /\ _keyState (obj w')
         = (if nonzero (scanned w) then KEY_PRESSED else KEY_RELEASED))
  /\ (elapsed <= _debounceTime (obj w) ->
      _lastChange (obj w') = _lastChange (obj w)
      /\ _keyState (obj w') = _keyState (obj w)
      /\ calls w' = calls w).
Proof.
  intros Hnow Hlast Hkey elapsed w'.
  assert (Hsub : usub now (_lastChange (obj w)) = elapsed).
  { unfold usub, elapsed.
    rewrite <- (Z.mod_small (now + ULONG_MODULUS - _lastChange (obj w))
                            ULONG_MODULUS) by lia.
    replace (now + ULONG_MODULUS - _lastChange (obj w))
      with (now - _lastChange (obj w) + 1 * ULONG_MODULUS) by ring.
    rewrite Z.mod_add; [reflexivity | discriminate]. }
  split; [exact Hsub|].
  unfold w'. rewrite getKey_eq. cbn [snd obj calls].
  split; intros He.
  - rewrite branches_accept by (auto; rewrite Hsub; exact He).
    cbn. split; reflexivity.
  - rewrite branches_suppress by (auto; rewrite Hsub; exact He).
    cbn. repeat split.
Qed.

(** ** The further properties on the 2x2 keypad *)

(** Whatever a program does after [setup()] is reachable. *)
Lemma scenario_reachable (prog : list Action) :
  reachable Scenario.keymap2x2 Scenario.rowPins Scenario.colPins 2 2
            Scenario.board0 (run prog Scenario.setup).
Proof.
  apply reachable_run. unfold Scenario.setup.
  apply reachable_run. apply reachable_start.
Defined.

Lemma sweeps_do_not_interfere_witness :
  let w := with_board (set_switches Scenario.two_keys) Scenario.setup in
  let w1 := snd (getKey 100 w) in
  let w2 := snd (getKeys 4 w) in
  ready (obj w1) (board w1)
  /\ ready (obj w2) (board w2)
  /\ fst (getKey 200 w1) = fst (getKey 100 w)
  /\ fst (getKey 200 w2) = fst (getKey 100 w)
  /\ fst (getKeys 4 w1) = fst (getKeys 4 w)
  /\ fst (getKeys 4 w2) = fst (getKeys 4 w).
Proof.
  intros w.
  apply (sweeps_do_not_interfere 100 200 4 w);
    [exact (scenario_ready Scenario.two_keys) | lia].
Defined.

Lemma getKey_is_first_of_getKeys_witness :
  let w := with_board (set_switches Scenario.two_keys) Scenario.setup in
  fst (getKey 100 w) = hd NO_KEY (map value (snd (fst (getKeys 4 w)))).
Proof.
  intros w.
  apply (getKey_is_first_of_getKeys 100 4 w);
    [exact (scenario_ready Scenario.two_keys) | lia].
Defined.

Lemma empty_sweeps_witness :
  fst (getKeys 0 (with_board (set_switches Scenario.two_keys) Scenario.setup))
  = (0%nat, []).
Proof.
  apply (empty_sweeps 100 0
           (with_board (set_switches Scenario.two_keys) Scenario.setup)).
  right. right. reflexivity.
Defined.

Lemma getKeys_prefix_witness :
  let w := with_board (set_switches Scenario.two_keys) Scenario.setup in
  snd (fst (getKeys 1 w)) = firstn 1 (snd (fst (getKeys 4 w)))
  /\ fst (fst (getKeys 1 w)) = Nat.min 1 (fst (fst (getKeys 4 w))).
Proof.
  intros w.
  apply (getKeys_prefix 1 4 w);
    [exact (scenario_ready Scenario.two_keys) | lia].
Defined.

Lemma accepted_changes_spaced_witness :
  usub 160 100 > _debounceTime (obj Scenario.setup)
  /\ (0 <= 100 <= 160 -> 160 < ULONG_MODULUS ->
      160 - 100 > _debounceTime (obj Scenario.setup)).
Proof.
  apply (accepted_changes_spaced Scenario.setup
           (set_switches (Scenario.one_key 0 0))
           (set_switches (Scenario.one_key 0 0)) 100 160
           [(set_switches Scenario.no_key, 120)]).
  - split; evaluate.
  - cbn [no_accept fst snd]. split; [|exact I].
    intros [_ H]. vm_compute in H. discriminate H.
  - split; evaluate.
Defined.

Lemma silent_without_listener_witness :
  let w := power_on Scenario.keypad Scenario.board0 in
  let prog := [CallBegin; KeysChange (Scenario.one_key 0 0); CallGetKey 100] in
  calls (run prog w) = calls w
  /\ _eventListener (obj (run prog w)) = false.
Proof.
  intros w prog.
  apply (silent_without_listener prog w); [reflexivity|].
  repeat constructor.
Defined.

Lemma isPressed_last_scan_witness :
  let w := with_board (set_switches (Scenario.one_key 0 0)) Scenario.setup in
  let rest := [CallSetHoldTime 30; KeysChange Scenario.no_key] in
  isPressed (obj (run rest (snd (getKey 100 w)))) "1"%char = true
  <-> "1"%char = fst (getKey 100 w).
Proof.
  intros w rest.
  apply (isPressed_last_scan 100 w rest "1"%char).
  repeat constructor.
Defined.

Lemma latched_hold_is_silent_witness :
  let w := run [CallSetHoldTime 30; KeysChange (Scenario.one_key 0 0);
                CallGetKey 100; CallGetKey 130] Scenario.setup in
  let prog := [CallSetHoldTime 5000; CallGetKey 200; CallSetDebounceTime 0;
               CallBegin; CallGetKey 300] in
  calls (run prog w) = calls w
  /\ _holding (obj (run prog w)) = true
  /\ _keyState (obj (run prog w)) = _keyState (obj w)
  /\ _lastKey (obj (run prog w)) = "1"%char.
Proof.
  intros w prog.
  apply (latched_hold_is_silent "1"%char prog w); try evaluate.
  cbn [steady prog]. repeat split; evaluate.
Defined.

Lemma press_at_reset_is_swallowed_witness :
  let hw := set_switches (Scenario.one_key 0 0)
              (begin Scenario.keypad Scenario.board0) in
  let w := {| obj := addEventListener true
                       (CustomKeypad_new Scenario.keymap2x2 Scenario.rowPins
                                         Scenario.colPins 2 2);
              board := hw;
              calls := [] |} in
  let ticks := [(fun h : Hardware => h, 400); (fun h : Hardware => h, 900)] in
  let w' := polls ticks (snd (getKey 10 w)) in
  fst (getKey 10 w) = scanned w
  /\ getKeyState (obj w') = KEY_RELEASED
  /\ calls w' = []
  /\ isPressed (obj w') (scanned w) = true.
Proof.
  intros hw w ticks.
  apply (press_at_reset_is_swallowed Scenario.keymap2x2 Scenario.rowPins
           Scenario.colPins 2 2 true hw 10 ticks).
  - lia.
  - evaluate.
  - cbn [sustained ticks fst snd]. repeat split; evaluate.
  - repeat constructor; cbn; lia.
Defined.

Lemma holding_iff_hold_witness :
  let w := run Scenario.short_hold Scenario.setup in
  _holding (obj w) = true <-> _keyState (obj w) = KEY_HOLD.
Proof.
  intros w.
  exact (holding_iff_hold _ _ _ _ _ _ w
           (scenario_reachable Scenario.short_hold)).
Defined.

Lemma pressStart_is_lastChange_witness :
  let w := run Scenario.S2_release Scenario.setup in
  _pressStart (obj w) = _lastChange (obj w).
Proof.
  intros w.
  exact (pressStart_is_lastChange _ _ _ _ _ _ w
           (scenario_reachable Scenario.S2_release)).
Defined.

Lemma config_is_constant_witness :
  let w := run Scenario.S2_release Scenario.setup in
  _rows (obj w) = Scenario.rowPins /\ _cols (obj w) = Scenario.colPins
  /\ _numRows (obj w) = 2%nat /\ _numCols (obj w) = 2%nat
  /\ _keymap (obj w) = Scenario.keymap2x2.
Proof.
  intros w.
  exact (config_is_constant _ _ _ _ _ _ w
           (scenario_reachable Scenario.S2_release)).
Defined.

Lemma dispatches_are_coherent_witness :
  Forall coherent (calls (run Scenario.short_hold Scenario.setup)).
Proof.
  exact (dispatches_are_coherent _ _ _ _ _ _ _
           (scenario_reachable Scenario.short_hold)).
Defined.

Lemma debounce_across_wrap_witness :
  let w := run [KeysChange (Scenario.one_key 0 0); CallGetKey 4294967290;
                KeysChange Scenario.no_key] Scenario.setup in
  usub 100 (_lastChange (obj w)) = 100 + ULONG_MODULUS - _lastChange (obj w).
Proof.
  intros w.
  apply (debounce_across_wrap 100 w); [split; evaluate | evaluate | evaluate].
Defined.
